(** * Evaluation harness of the DQN landmark-detection agent (DQN/DQN-code/common.py)

    A shallow embedding of [play_one_episode], [play_n_episodes],
    [eval_with_funcs] (worker threads and main thread, as an interleaving
    step semantics) and the [Evaluator] callback, followed by the properties
    established about them.

    Conventions of the embedding:
    - Python objects that the code handles dynamically (tuples returned by
      [play_one_episode], the entries of the [info] dictionary, result rows)
      are terms of [value]; real-valued scores and rewards are exact
      rationals ([Q]), so rounding of sums and means is not represented;
    - the one place where the code's result depends on rounding, the product
      [self.eval_episode * 0.94], is evaluated in IEEE-754 binary64 through
      the Standard Library's [SpecFloat];
    - a raised exception is the [Raise] constructor of [result]; a loop that
      may run forever takes a fuel argument and answers [None] when the fuel
      is exhausted. *)

From Stdlib Require Import ZArith QArith Qround Lia SpecFloat.
From stdpp Require Import base option list gmap strings.

Local Open Scope Z_scope.

(* ================================================================= *)
(** * Part I: the embedding *)
(* ================================================================= *)

(** ** Python values, exceptions, and the error monad *)

Module Py.

#[warnings="-register-all"] Inductive value :=
| VNone
| VInt (n : Z)
| VFloat (x : Q)
| VStr (s : string)
| VSeq (vs : list value).       (* tuple, list or array *)

Inductive exn_class :=
| RuntimeError | NotImplementedError | RecursionError
| ValueError | KeyError | IndexError | TypeError
| AssertionError | OverflowError
| OtherError (name : string).

Record exn := Exn { exn_cls : exn_class; exn_msg : string }.

(** [isinstance(e, RuntimeError)]: the class itself and its builtin
    subclasses. *)
Definition is_RuntimeError (e : exn) : bool :=
  match exn_cls e with
  | RuntimeError | NotImplementedError | RecursionError => true
  | _ => false
  end.

Inductive result (A : Type) : Type :=
| Ok (a : A)
| Raise (e : exn).
Arguments Ok {A} a.
Arguments Raise {A} e.

#[global] Instance result_ret : MRet result := @Ok.
#[global] Instance result_bind : MBind result :=
  fun A B f m => match m with Ok a => f a | Raise e => Raise e end.

(** [l[i]] on a Python list. *)
Definition getitem {A} (l : list A) (i : nat) : result A :=
  match l !! i with
  | Some x => Ok x
  | None => Raise (Exn IndexError "index out of range")
  end.

(** [v[i]] on a dynamically typed value. *)
Definition index (v : value) (i : nat) : result value :=
  match v with
  | VSeq vs => getitem vs i
  | VStr s =>
      match String.get i s with
      | Some c => Ok (VStr (String c EmptyString))
      | None => Raise (Exn IndexError "string index out of range")
      end
  | _ => Raise (Exn TypeError "object is not subscriptable")
  end.

(** [d[key]] on a dictionary with string keys. *)
Definition dict_get (d : gmap string value) (key : string) : result value :=
  match d !! key with
  | Some v => Ok v
  | None => Raise (Exn KeyError key)
  end.

(** ["{:>15}".format(v)]: only strings and numbers accept an alignment
    specification. *)
Definition format_align (v : value) : result unit :=
  match v with
  | VStr _ | VInt _ | VFloat _ => Ok ()
  | _ => Raise (Exn TypeError "unsupported format string")
  end.

(** ["{:>5.2f}".format(v)]: the presentation type [f] needs a number. *)
Definition format_fixed (v : value) : result unit :=
  match v with
  | VInt _ | VFloat _ => Ok ()
  | VStr _ => Raise (Exn ValueError "Unknown format code 'f'")
  | _ => Raise (Exn TypeError "unsupported format string")
  end.

(** [numpy.ndarray.argmax] on a vector: the first index of the largest
    entry; an empty vector is an error. *)
Fixpoint argmax_from (best : Q) (besti i : nat) (l : list Q) : nat :=
  match l with
  | [] => besti
  | x :: l' =>
      if Qlt_le_dec best x then argmax_from x i (S i) l'
      else argmax_from best besti (S i) l'
  end.

Definition argmax (l : list Q) : result nat :=
  match l with
  | [] => Raise (Exn ValueError "attempt to get argmax of an empty sequence")
  | x :: l' => Ok (argmax_from x 0%nat 1%nat l')
  end.

End Py.
Import Py.

(** ** The environment and predictor collaborators *)

(** An environment object with mutable state [St]: [reset()], [step(act,
    q_values)] and [render()].  Each call may raise. *)
Record Env (St Obs : Type) := {
  env_reset : St -> result (Obs * St);
  env_step : nat -> list Q -> St ->
             result (Obs * Q * bool * gmap string value * St);
  env_render : St -> result St
}.
Arguments env_reset {St Obs} e st.
Arguments env_step {St Obs} e act q_values st.
Arguments env_render {St Obs} e st.

(** A predictor maps a batch of observations to a list of output arrays,
    each indexed by the position in the batch. *)
Definition Predictor (Obs : Type) : Type :=
  list Obs -> result (list (list (list Q))).

(** ** [play_one_episode] *)

Section Episode.
Context {St Obs : Type}.

(** The local function [predict] of [play_one_episode]. *)
Definition predict (func : Predictor Obs) (s : Obs) : result (nat * list Q) :=
  out ← func [s];
  out0 ← getitem out 0;
  q_values ← getitem out0 0;
  act ← argmax q_values;
  mret (act, q_values).

(** The tuple built by the [return] statement, evaluated left to right. *)
Definition episode_return (sum_r : Q) (info : gmap string value)
  : result (list value) :=
  filename ← dict_get info "filename";
  distError ← dict_get info "distError";
  loc ← dict_get info "loc";
  target_loc ← dict_get info "target_loc";
  spacing ← dict_get info "spacing";
  start_pos ← dict_get info "start_pos";
  mret [VFloat sum_r; filename; distError; loc; target_loc; spacing; start_pos].

(** Outcome of one iteration of the [while True] loop. *)
Inductive iteration :=
| Continue (ob : Obs) (sum_r : Q) (st : St)
| Return (ret : list value) (st : St).

Definition loop_body (env : Env St Obs) (func : Predictor Obs) (render : bool)
    (st : St) (ob : Obs) (sum_r : Q) : result iteration :=
  '(act, q_values) ← predict func ob;
  '(ob', r, isOver, info, st) ← env_step env act q_values st;
  st ← (if render then env_render env st else mret st);
  let sum_r := (sum_r + r)%Q in
  if isOver : bool then
    ret ← episode_return sum_r info;
    mret (Return ret st)
  else mret (Continue ob' sum_r st).

Fixpoint play_loop (fuel : nat) (env : Env St Obs) (func : Predictor Obs)
    (render : bool) (st : St) (ob : Obs) (sum_r : Q)
  : option (result (list value * St)) :=
  match fuel with
  | O => None
  | S fuel' =>
      match loop_body env func render st ob sum_r with
      | Raise e => Some (Raise e)
      | Ok (Return ret st') => Some (Ok (ret, st'))
      | Ok (Continue ob' sum_r' st') =>
          play_loop fuel' env func render st' ob' sum_r'
      end
  end.

Definition play_one_episode (fuel : nat) (env : Env St Obs)
    (func : Predictor Obs) (render : bool) (st : St)
  : option (result (list value * St)) :=
  match env_reset env st with
  | Raise e => Some (Raise e)
  | Ok (ob, st) => play_loop fuel env func render st ob 0%Q
  end.

(** ** [play_n_episodes] *)

Definition header : list value :=
  [VStr "idx_num"; VStr "filename"; VStr "score"; VStr "distance_error";
   VStr "final_coordinates_x"; VStr "final_coordinates_y";
   VStr "final_coordinates_z";
   VStr "target_x"; VStr "target_y"; VStr "target_z";
   VStr "spacing_x"; VStr "spacing_y"; VStr "spacing_z"].

(** Unpacking a tuple into seven targets. *)
Definition unpack7 (t : list value)
  : result (value * value * value * value * value * value * value) :=
  match t with
  | [a; b; c; d; e; f; g] => Ok (a, b, c, d, e, f, g)
  | _ => Raise (Exn ValueError "wrong number of values to unpack (expected 7)")
  end.

(** The [logger.info] call of the loop: only whether the format call
    succeeds is represented. *)
Definition log_episode (filename score ditance_error : value) : result unit :=
  _ ← format_align filename;
  _ ← format_fixed score;
  format_fixed ditance_error.

(** The body of the [for k in range(nr)] loop after the episode was played:
    the row appended to [info_episodes]. *)
Definition episode_row (k : nat) (ret : list value) : result (list value) :=
  '(score, filename, ditance_error, loc, target_loc, spacing, start_pos)
    ← unpack7 ret;
  _ ← log_episode filename score ditance_error;
  l0 ← index loc 0; l1 ← index loc 1; l2 ← index loc 2;
  t0 ← index target_loc 0; t1 ← index target_loc 1; t2 ← index target_loc 2;
  s0 ← index spacing 0; s1 ← index spacing 1; s2 ← index spacing 2;
  mret [VInt (Z.of_nat k + 1); filename; score; ditance_error;
        l0; l1; l2; t0; t1; t2; s0; s1; s2].

(** [n] remaining iterations of the [for] loop, the next one with index [k]. *)
Fixpoint play_episodes_from (fuel : nat) (player : Env St Obs)
    (predfunc : Predictor Obs) (render : bool) (n k : nat) (st : St)
    (info_episodes : list (list value))
  : option (result (list (list value) * St)) :=
  match n with
  | O => Some (Ok (info_episodes, st))
  | S n' =>
      match play_one_episode fuel player predfunc render st with
      | None => None
      | Some (Raise e) => Some (Raise e)
      | Some (Ok (ret, st')) =>
          match episode_row k ret with
          | Raise e => Some (Raise e)
          | Ok row =>
              play_episodes_from fuel player predfunc render n' (S k) st'
                                 (info_episodes ++ [row])
          end
      end
  end.

(** [fuel] bounds the number of steps of each single episode. *)
Definition play_n_episodes (fuel : nat) (player : Env St Obs)
    (predfunc : Predictor Obs) (nr : Z) (render : bool) (st : St)
  : option (result (list (list value) * St)) :=
  play_episodes_from fuel player predfunc render (Z.to_nat nr) 0 st [header].

End Episode.

(** ** Collaborator classes used by [eval_with_funcs] *)

(** Modelled from the spec: the running statistic counter [StatCounter]
    (imported from the training framework, so not part of these sources):
    "count, sum, max, mutated incrementally by [feed], queried via
    average/max".  Querying a counter that was never fed is an error. *)
Module StatCounter.

Record t := mk { count : nat; sum : Q; max_value : option Q }.

Definition empty : t := mk 0 0%Q None.

Definition feed (v : Q) (c : t) : t :=
  mk (S (count c)) (sum c + v)%Q
     (Some match max_value c with
           | None => v
           | Some m => if Qlt_le_dec m v then v else m
           end).

Definition average (c : t) : result Q :=
  match count c with
  | O => Raise (Exn AssertionError "empty counter")
  | S _ => Ok (sum c / inject_Z (Z.of_nat (count c)))%Q
  end.

Definition max (c : t) : result Q :=
  match max_value c with
  | None => Raise (Exn AssertionError "empty counter")
  | Some m => Ok m
  end.

(** Feeding an object taken from a queue: it has to be a number. *)
Definition as_number (v : value) : result Q :=
  match v with
  | VInt n => Ok (inject_Z n)
  | VFloat x => Ok x
  | _ => Raise (Exn TypeError "unsupported operand type")
  end.

Definition feed_value (r : value) (c : t) : result t :=
  x ← as_number r; mret (feed x c).

End StatCounter.

(** Modelled from the spec: the FIFO queue shared by the threads
    ([queue.Queue] of the Python runtime).  [maxsize = 0] is an unbounded
    queue, which is what [queue.Queue()] builds. *)
Module Queue.

Record t := mk { maxsize : nat; items : list value }.

Definition new : t := mk 0 [].

Definition qsize (q : t) : nat := length (items q).

Definition full (q : t) : bool :=
  (0 <? maxsize q)%nat && (maxsize q <=? qsize q)%nat.

(** [put(obj, timeout=5)]: [None] stands for the [queue.Full] raised when
    the timeout expires on a full queue. *)
Definition put (q : t) (v : value) : option t :=
  if full q then None else Some (mk (maxsize q) (items q ++ [v])).

(** [get()]: [None] stands for a call that blocks on an empty queue. *)
Definition get (q : t) : option (value * t) :=
  match items q with
  | [] => None
  | v :: rest => Some (v, mk (maxsize q) rest)
  end.

End Queue.

(** ** [eval_with_funcs]: worker threads and the calling thread *)

Record config (St Obs : Type) := {
  predictors : list (Predictor Obs);
  nr_eval : Z;
  player_env : Env St Obs;                (* methods of the objects built by the factory *)
  get_player_fn : bool -> option (list string) -> result St;
  files_list : option (list string)
}.
Arguments predictors {St Obs} c.
Arguments nr_eval {St Obs} c.
Arguments player_env {St Obs} c.
Arguments get_player_fn {St Obs} c task files.
Arguments files_list {St Obs} c.

Inductive tid := MainThread | WorkerThread (i : nat).

Section EvalWithFuncs.
Context {St Obs : Type}.
Variable cfg : config St Obs.

(** Control points of [Worker.run], with the live local variables. *)
Inductive wstate :=
| WCreated                                      (* constructed, [start] not yet called *)
| WStarted                                      (* before [player = get_player_fn(...)] *)
| WLoop (player : St)                           (* at the test of [while not self.stopped()] *)
| WEpisode (player : St) (ob : Obs) (sum_r : Q) (* in [play_one_episode], top of [while True] *)
| WPutScore (player : St) (score ditance_error : value)
                                                (* in [queue_put_stoppable(self.q, score)] *)
| WPutDist (player : St) (ditance_error : value)
                                                (* in [queue_put_stoppable(self.q_dist, ...)] *)
| WReturned                                     (* [run] returned *)
| WRaised (e : exn).                            (* [run] was left by an uncaught exception *)

Definition terminated (w : wstate) : bool :=
  match w with
  | WReturned | WRaised _ => true
  | _ => false
  end.

(** [Worker.func]: the predictor guarded by the stop flag. *)
Definition Worker_func (stopped : bool) (_func : Predictor Obs) : Predictor Obs :=
  fun args =>
    if stopped then Raise (Exn RuntimeError "stopped!") else _func args.

(** Unpacking the result of [play_one_episode] into the four targets
    [score, filename, ditance_error, q_values]. *)
Definition unpack4 (t : list value) : result (value * value * value * value) :=
  match t with
  | [a; b; c; d] => Ok (a, b, c, d)
  | _ => Raise (Exn ValueError "wrong number of values to unpack (expected 4)")
  end.

(** The [try ... except RuntimeError: return] around the episode. *)
Definition on_exception (e : exn) : wstate :=
  if is_RuntimeError e then WReturned else WRaised e.

(** How one round of a stoppable put ends. *)
Inductive put_round :=
| GivenUp
| Done (q' : Queue.t)
| Again.

(** Modelled from the spec: [queue_put_stoppable] of the framework's
    stoppable thread (not part of these sources): "a worker checks a stop
    flag before each blocking queue put; a queue put that would block past a
    stop signal must abort rather than deadlock".  One round of it: give up
    when the flag is set, else try to put with a timeout, and go for another
    round when the queue stayed full. *)
Definition queue_put_stoppable (stopped : bool) (q : Queue.t) (obj : value)
  : put_round :=
  if stopped then GivenUp
  else match Queue.put q obj with
       | Some q' => Done q'
       | None => Again
       end.

(** One step of a worker whose stop flag currently reads [stopped].
    In [WEpisode] a step is one iteration of the loop of
    [play_one_episode]: the flag is read once, by [Worker.func], at its
    start.  In the two put states a step is one round of
    [queue_put_stoppable]. *)
Definition worker_step (stopped : bool) (_func : Predictor Obs) (w : wstate)
    (q q_dist : Queue.t) : option (wstate * Queue.t * Queue.t) :=
  match w with
  | WCreated | WReturned | WRaised _ => None
  | WStarted =>
      Some (match get_player_fn cfg false (files_list cfg) with
            | Ok player => WLoop player
            | Raise e => WRaised e
            end, q, q_dist)
  | WLoop player =>
      if stopped then Some (WReturned, q, q_dist)
      else
        Some (match env_reset (player_env cfg) player with
              | Ok (ob, player) => WEpisode player ob 0%Q
              | Raise e => on_exception e
              end, q, q_dist)
  | WEpisode player ob sum_r =>
      Some (match loop_body (player_env cfg) (Worker_func stopped _func)
                            false player ob sum_r with
            | Raise e => on_exception e
            | Ok (Continue ob' sum_r' player') => WEpisode player' ob' sum_r'
            | Ok (Return ret player') =>
                match unpack4 ret with
                | Ok (score, filename, ditance_error, q_values) =>
                    WPutScore player' score ditance_error
                | Raise e => on_exception e
                end
            end, q, q_dist)
  | WPutScore player score ditance_error =>
      Some match queue_put_stoppable stopped q score with
           | GivenUp => (WPutDist player ditance_error, q, q_dist)
           | Done q' => (WPutDist player ditance_error, q', q_dist)
           | Again => (w, q, q_dist)
           end
  | WPutDist player ditance_error =>
      Some match queue_put_stoppable stopped q_dist ditance_error with
           | GivenUp => (WLoop player, q, q_dist)
           | Done q_dist' => (WLoop player, q, q_dist')
           | Again => (w, q, q_dist)
           end
  end.

(** The final [if stat.count > 0: return (...)] / [return (0, 0, 0, 0)]. *)
Definition eval_return (stat dist_stat : StatCounter.t) : result (Q * Q * Q * Q) :=
  if (0 <? StatCounter.count stat)%nat then
    mean_score ← StatCounter.average stat;
    max_score ← StatCounter.max stat;
    mean_dist ← StatCounter.average dist_stat;
    max_dist ← StatCounter.max dist_stat;
    mret (mean_score, max_score, mean_dist, max_dist)
  else mret (0%Q, 0%Q, 0%Q, 0%Q).

(** Control points of the calling thread. *)
Inductive mstate :=
| MStart (k : nat)                                      (* [for k in threads: k.start()] *)
| MGetScore (todo : nat) (stat dist_stat : StatCounter.t)  (* [r = q.get()], [todo] rounds left *)
| MGetDist (todo : nat) (stat dist_stat : StatCounter.t)   (* [dist = q_dist.get()] *)
| MStop (k : nat) (stat dist_stat : StatCounter.t)      (* [for k in threads: k.stop()] *)
| MJoin (k : nat) (stat dist_stat : StatCounter.t)      (* [for k in threads: k.join()] *)
| MDrain (stat dist_stat : StatCounter.t)               (* [while q.qsize()] *)
| MDrainDist (stat dist_stat : StatCounter.t)           (* [while q_dist.qsize()] *)
| MReturned (r : Q * Q * Q * Q)
| MRaised (e : exn).

(** A [Worker] object: the predictor it was built with, its stop event
    (set by [stop()], read by [stopped()]), and where its [run] is. *)
Record worker := {
  _func : Predictor Obs;
  stop_evt : bool;
  at_ : wstate
}.

Definition set_at (w' : wstate) (k : worker) : worker :=
  {| _func := _func k; stop_evt := stop_evt k; at_ := w' |}.

Definition set_stop (k : worker) : worker :=
  {| _func := _func k; stop_evt := true; at_ := at_ k |}.

(** [threading.Thread.start]: the thread becomes runnable. *)
Definition start (k : worker) : worker :=
  match at_ k with
  | WCreated => set_at WStarted k
  | _ => k
  end.

Record sys := {
  main : mstate;
  threads : list worker;
  q : Queue.t;
  q_dist : Queue.t
}.

(** The state after [q], [q_dist] and [threads] have been built. *)
Definition init : sys :=
  {| main := MStart 0;
     threads := (fun f => {| _func := f; stop_evt := false; at_ := WCreated |})
                <$> predictors cfg;
     q := Queue.new;
     q_dist := Queue.new |}.

Definition set_main (m : mstate) (s : sys) : sys :=
  {| main := m; threads := threads s; q := q s; q_dist := q_dist s |}.

(** One step of the calling thread; [None] when it is blocked (in [get] or
    [join]) or has finished. *)
Definition main_step (s : sys) : option sys :=
  match main s with
  | MStart k =>
      match threads s !! k with
      | Some w =>
          (* k.start(); time.sleep(0.1) *)
          Some {| main := MStart (S k);
                  threads := <[k := start w]> (threads s);
                  q := q s; q_dist := q_dist s |}
      | None =>
          Some (set_main (MGetScore (Z.to_nat (nr_eval cfg))
                                    StatCounter.empty StatCounter.empty) s)
      end
  | MGetScore O stat dist_stat => Some (set_main (MStop 0 stat dist_stat) s)
  | MGetScore (S todo) stat dist_stat =>
      match Queue.get (q s) with
      | None => None
      | Some (r, q') =>
          Some {| main := match StatCounter.feed_value r stat with
                          | Ok stat' => MGetDist todo stat' dist_stat
                          | Raise e => MRaised e
                          end;
                  threads := threads s; q := q'; q_dist := q_dist s |}
      end
  | MGetDist todo stat dist_stat =>
      match Queue.get (q_dist s) with
      | None => None
      | Some (dist, q_dist') =>
          Some {| main := match StatCounter.feed_value dist dist_stat with
                          | Ok dist_stat' => MGetScore todo stat dist_stat'
                          | Raise e => MRaised e
                          end;
                  threads := threads s; q := q s; q_dist := q_dist' |}
      end
  | MStop k stat dist_stat =>
      match threads s !! k with
      | Some w =>
          Some {| main := MStop (S k) stat dist_stat;
                  threads := <[k := set_stop w]> (threads s);
                  q := q s; q_dist := q_dist s |}
      | None => Some (set_main (MJoin 0 stat dist_stat) s)
      end
  | MJoin k stat dist_stat =>
      match threads s !! k with
      | Some w =>
          match at_ w with
          | WCreated =>
              Some (set_main (MRaised (Exn RuntimeError
                                           "cannot join thread before it is started")) s)
          | _ =>
              if terminated (at_ w)
              then Some (set_main (MJoin (S k) stat dist_stat) s)
              else None
          end
      | None => Some (set_main (MDrain stat dist_stat) s)
      end
  | MDrain stat dist_stat =>
      match Queue.get (q s) with
      | None => Some (set_main (MDrainDist stat dist_stat) s)
      | Some (r, q') =>
          Some {| main := match StatCounter.feed_value r stat with
                          | Ok stat' => MDrain stat' dist_stat
                          | Raise e => MRaised e
                          end;
                  threads := threads s; q := q'; q_dist := q_dist s |}
      end
  | MDrainDist stat dist_stat =>
      match Queue.get (q_dist s) with
      | None =>
          Some (set_main match eval_return stat dist_stat with
                         | Ok r => MReturned r
                         | Raise e => MRaised e
                         end s)
      | Some (dist, q_dist') =>
          Some {| main := match StatCounter.feed_value dist dist_stat with
                          | Ok dist_stat' => MDrainDist stat dist_stat'
                          | Raise e => MRaised e
                          end;
                  threads := threads s; q := q s; q_dist := q_dist' |}
      end
  | MReturned _ | MRaised _ => None
  end.

(** One step of thread [t]; [None] when [t] cannot move. *)
Definition sys_step (t : tid) (s : sys) : option sys :=
  match t with
  | MainThread => main_step s
  | WorkerThread i =>
      match threads s !! i with
      | Some w =>
          match worker_step (stop_evt w) (_func w) (at_ w) (q s) (q_dist s) with
          | Some (w', q', q_dist') =>
              Some {| main := main s;
                      threads := <[i := set_at w' w]> (threads s);
                      q := q'; q_dist := q_dist' |}
          | None => None
          end
      | None => None
      end
  end.

(** Running under a schedule: at time [k] the scheduler picks thread
    [sched k]; picking a thread that cannot move leaves the state as it is. *)
Definition step_or_stay (t : tid) (s : sys) : sys := default s (sys_step t s).

Fixpoint run (sched : nat -> tid) (k n : nat) (s : sys) : sys :=
  match n with
  | O => s
  | S n' => run sched (S k) n' (step_or_stay (sched k) s)
  end.

(** What the caller of [eval_with_funcs] has received after [n] scheduler
    steps: [None] while the call has not come back. *)
Definition eval_with_funcs (sched : nat -> tid) (n : nat)
  : option (result (Q * Q * Q * Q)) :=
  match main (run sched 0 n init) with
  | MReturned r => Some (Ok r)
  | MRaised e => Some (Raise e)
  | _ => None
  end.

End EvalWithFuncs.

Arguments WCreated {St Obs}.
Arguments WStarted {St Obs}.
Arguments WReturned {St Obs}.
Arguments WRaised {St Obs} e.
Arguments _func {St Obs} w.
Arguments stop_evt {St Obs} w.
Arguments at_ {St Obs} w.
Arguments main {St Obs} s.
Arguments threads {St Obs} s.
Arguments q {St Obs} s.
Arguments q_dist {St Obs} s.

(** ** Binary64 arithmetic of the Python runtime *)

Module Float64.

Definition prec : Z := 53.
Definition emax : Z := 1024.

(** [float(n)] for an integer [n]: the nearest double, ties to even; an
    integer beyond the range of finite doubles is an [OverflowError]. *)
Definition of_int (n : Z) : result spec_float :=
  match binary_normalize prec emax n 0 false with
  | S754_infinity _ => Raise (Exn OverflowError "int too large to convert to float")
  | x => Ok x
  end.

Definition mul (x y : spec_float) : spec_float := SFmul prec emax x y.

(** [int(x)]: truncation toward zero. *)
Definition to_int (x : spec_float) : result Z :=
  match x with
  | S754_zero _ => Ok 0
  | S754_finite s m e =>
      Ok (cond_Zopp s (match e with
                       | Zneg k => Z.pos m / 2 ^ Z.pos k
                       | _ => Z.pos m * 2 ^ e
                       end))
  | S754_infinity _ => Raise (Exn OverflowError "cannot convert float infinity to integer")
  | S754_nan => Raise (Exn ValueError "cannot convert float NaN to integer")
  end.

(** The literal [0.94]: the double nearest to 94/100. *)
Definition lit_0_94 : spec_float :=
  SFdiv prec emax (S754_finite false 94 0) (S754_finite false 100 0).

(** [n * c] for an integer [n] and a double [c]. *)
Definition int_times (n : Z) (c : spec_float) : result spec_float :=
  x ← of_int n; mret (mul x c).

End Float64.

(** ** The [Evaluator] callback *)

Module Evaluator.

(** The attributes that [_trigger] reads or writes: the episode budget and
    the scalars recorded so far by [self.trainer.monitors]. *)
Record t := mk {
  eval_episode : Z;
  monitors : list (string * Q)
}.

(** [int(self.eval_episode * 0.94)] *)
Definition shrink (eval_episode : Z) : result Z :=
  x ← Float64.int_times eval_episode Float64.lit_0_94;
  Float64.to_int x.

(** [_trigger], for the two readings [clock0], [clock1] of [time.time()]
    and the tuple [stats] that the call of [eval_with_funcs] returned. *)
Definition _trigger (clock0 clock1 : Q) (stats : Q * Q * Q * Q) (self : t)
  : result t :=
  let t := (clock1 - clock0)%Q in
  let '(mean_score, max_score, mean_dist, max_dist) := stats in
  eval_episode' ← (if Qlt_le_dec (inject_Z (10 * 60)) t
                    then shrink (eval_episode self)
                    else mret (eval_episode self));
  mret (mk eval_episode'
           (monitors self ++ [("mean_score", mean_score);
                              ("max_score", max_score);
                              ("mean_distance", mean_dist);
                              ("max_distance", max_dist)])).

(** A sequence of triggers.  A trigger that raises leaves the attributes
    as they were: the assignment to [self.eval_episode] did not happen. *)
Definition trigger_or_keep (ev : Q * Q * (Q * Q * Q * Q)) (self : t) : t :=
  let '(clock0, clock1, stats) := ev in
  match _trigger clock0 clock1 stats self with
  | Ok self' => self'
  | Raise _ => self
  end.

Definition triggers (evs : list (Q * Q * (Q * Q * Q * Q))) (self : t) : t :=
  fold_left (fun s ev => trigger_or_keep ev s) evs self.

End Evaluator.

(** ** The callers of [eval_with_funcs] *)

Section Callers.
Context {St Obs : Type}.

(** [eval_model_multithread]: [min(cpu_count // 2, 8)] workers share the one
    predictor [pred]; the statistics are logged and nothing is returned.
    The log line is represented by the four numbers it prints, each under
    the label that the format string gives it; the session context manager
    of the framework is not represented. *)
Definition eval_model_multithread (cpu_count : Z) (pred : Predictor Obs)
    (nr_eval : Z) (player_env : Env St Obs)
    (get_player_fn : bool -> option (list string) -> result St)
    (files_list : option (list string)) (sched : nat -> tid) (n : nat)
  : option (result (list (string * Q))) :=
  let NR_PROC := Z.min (cpu_count / 2) 8 in
  match eval_with_funcs
          {| predictors := replicate (Z.to_nat NR_PROC) pred;
             nr_eval := nr_eval;
             player_env := player_env;
             get_player_fn := get_player_fn;
             files_list := files_list |} sched n with
  | None => None
  | Some (Raise e) => Some (Raise e)
  | Some (Ok (mean_score, max_score, mean_dist, max_dist)) =>
      Some (Ok [("Average Score", mean_score); ("Max Score", max_score);
                ("Average Distance", mean_dist); ("Max Distance", max_dist)])
  end.

(** [Evaluator._setup_graph]: [self.pred_funcs], that is
    [min(cpu_count // 2, 20)] references to the predictor obtained from the
    trainer. *)
Definition Evaluator_setup_graph (cpu_count : Z) (predictor : Predictor Obs)
  : list (Predictor Obs) :=
  let NR_PROC := Z.min (cpu_count / 2) 20 in
  replicate (Z.to_nat NR_PROC) predictor.

(** [Evaluator._trigger] together with the call of [eval_with_funcs] that
    it makes between the two clock readings: [None] while that call has not
    come back. *)
Definition Evaluator_trigger (pred_funcs : list (Predictor Obs))
    (player_env : Env St Obs)
    (get_player_fn : bool -> option (list string) -> result St)
    (files_list : option (list string)) (clock0 clock1 : Q)
    (self : Evaluator.t) (sched : nat -> tid) (n : nat)
  : option (result Evaluator.t) :=
  match eval_with_funcs
          {| predictors := pred_funcs;
             nr_eval := Evaluator.eval_episode self;
             player_env := player_env;
             get_player_fn := get_player_fn;
             files_list := files_list |} sched n with
  | None => None
  | Some (Raise e) => Some (Raise e)
  | Some (Ok stats) => Some (Evaluator._trigger clock0 clock1 stats self)
  end.

End Callers.

(** ** Stub collaborators for the examples *)

Module Stub.

(** The environment counts the steps of the current episode; every episode
    lasts two steps; a step is rewarded 1 when the agent takes action 1 and
    0 otherwise. *)
Definition info : gmap string value :=
  list_to_map
    [("filename", VStr "case01");
     ("distError", VFloat (3 # 2));
     ("loc", VSeq [VInt 10; VInt 20; VInt 30]);
     ("target_loc", VSeq [VInt 11; VInt 20; VInt 30]);
     ("spacing", VSeq [VFloat 1; VFloat 1; VFloat (5 # 2)]);
     ("start_pos", VSeq [VInt 0; VInt 0; VInt 0])].

Definition env : Env nat nat := {|
  env_reset := fun _ => Ok (0%nat, 0%nat);
  env_step := fun act _ st =>
    Ok (S st, if Nat.eqb act 1 then 1%Q else 0%Q, Nat.leb 1 st, info, S st);
  env_render := fun st => Ok st
|}.

(** The predictor always prefers action 1. *)
Definition pred : Predictor nat :=
  fun batch => Ok [ (fun _ => [1 # 2; 3; 2]%Q) <$> batch ].

(** The tuple returned for every episode of the stub. *)
Definition ret : list value :=
  [VFloat 2; VStr "case01"; VFloat (3 # 2);
   VSeq [VInt 10; VInt 20; VInt 30]; VSeq [VInt 11; VInt 20; VInt 30];
   VSeq [VFloat 1; VFloat 1; VFloat (5 # 2)]; VSeq [VInt 0; VInt 0; VInt 0]].

(** An environment whose simulator fails with a [RuntimeError] of its own. *)
Definition broken_env : Env nat nat := {|
  env_reset := fun _ => Ok (0%nat, 0%nat);
  env_step := fun _ _ _ => Raise (Exn RuntimeError "simulator crashed");
  env_render := fun st => Ok st
|}.

Definition cfg (n : nat) (nr : Z) : config nat nat := {|
  predictors := replicate n pred;
  nr_eval := nr;
  player_env := env;
  get_player_fn := fun _ _ => Ok 0%nat;
  files_list := None
|}.

Definition broken_cfg : config nat nat := {|
  predictors := [pred];
  nr_eval := 1;
  player_env := broken_env;
  get_player_fn := fun _ _ => Ok 0%nat;
  files_list := None
|}.

(** A queue of capacity one that is full. *)
Definition full_queue : Queue.t := Queue.mk 1 [VFloat 1].

End Stub.

(** ** Further stub collaborators *)

Module Cases.

(** An environment that never reports completion. *)
Definition endless_env : Env nat nat := {|
  env_reset := fun _ => Ok (0%nat, 0%nat);
  env_step := fun _ _ st => Ok (S st, 1%Q, false, ∅, S st);
  env_render := fun st => Ok st
|}.

(** One-step episodes whose [info] has neither [distError] nor [spacing]. *)
Definition partial_info : gmap string value :=
  delete "spacing" (delete "distError" Stub.info).

Definition partial_env : Env nat nat := {|
  env_reset := fun st => Ok (0%nat, st);
  env_step := fun _ _ st => Ok (0%nat, 1%Q, true, partial_info, S st);
  env_render := fun st => Ok st
|}.

(** An environment with two cases to play, in one-step episodes: the state
    counts the episodes begun, and the third [reset] fails. *)
Definition two_case_env : Env nat nat := {|
  env_reset := fun st =>
    if (st <? 2)%nat then Ok (0%nat, S st)
    else Raise (Exn IndexError "list index out of range");
  env_step := fun _ _ st => Ok (0%nat, 1%Q, true, Stub.info, st);
  env_render := fun st => Ok st
|}.

End Cases.

(* ================================================================= *)
(** * Part II: specification vocabulary *)
(* ================================================================= *)

(** [greedy q act]: [act] is the first position holding the largest entry
    of [q]. *)
Definition greedy (q_values : list Q) (act : nat) : Prop :=
  exists x, q_values !! act = Some x
    /\ (forall j y, q_values !! j = Some y -> Qle y x)
    /\ (forall j y, (j < act)%nat -> q_values !! j = Some y -> Qlt y x).

(** One interaction with the environment, as seen from outside. *)
Record transition := {
  tr_q : list Q;                    (* predicted action values *)
  tr_act : nat;                     (* action passed to [step] *)
  tr_reward : Q;
  tr_over : bool;
  tr_info : gmap string value
}.

Section EpisodeSpec.
Context {St Obs : Type}.
Variables (env : Env St Obs) (func : Predictor Obs) (render : bool).

(** [does st ob t ob' st']: in state [st] with observation [ob], one
    iteration predicts the values [tr_q t], takes the greedy action
    [tr_act t], and the environment answers with the reward, flag and info
    of [t], the next observation [ob'] and the next state [st']. *)
Definition does (st : St) (ob : Obs) (t : transition) (ob' : Obs) (st' : St) : Prop :=
  exists out out0 st1,
    func [ob] = Ok out /\ out !! 0%nat = Some out0
    /\ out0 !! 0%nat = Some (tr_q t)
    /\ greedy (tr_q t) (tr_act t)
    /\ env_step env (tr_act t) (tr_q t) st
       = Ok (ob', tr_reward t, tr_over t, tr_info t, st1)
    /\ (if render then env_render env st1 = Ok st' else st' = st1).

(** [plays st ob tr st_end]: the environment goes through the transitions
    [tr] one after the other and ends in state [st_end]. *)
Fixpoint plays (st : St) (ob : Obs) (tr : list transition) (st_end : St) : Prop :=
  match tr with
  | [] => st_end = st
  | t :: tr' =>
      exists ob' st', does st ob t ob' st' /\ plays st' ob' tr' st_end
  end.

(** Rewards added up the way the loop does, starting from [sum_r]. *)
Definition total_reward (sum_r : Q) (tr : list transition) : Q :=
  fold_left Qplus (tr_reward <$> tr) sum_r.

(** The tuple returned for an episode with total reward [score] whose last
    step reported the dictionary [info]. *)
Definition episode_result (score : Q) (info : gmap string value)
    (ret : list value) : Prop :=
  exists filename distError loc target_loc spacing start_pos,
    info !! "filename" = Some filename
    /\ info !! "distError" = Some distError
    /\ info !! "loc" = Some loc
    /\ info !! "target_loc" = Some target_loc
    /\ info !! "spacing" = Some spacing
    /\ info !! "start_pos" = Some start_pos
    /\ ret = [VFloat score; filename; distError; loc; target_loc; spacing; start_pos].

(** A complete episode of [n] steps from the state reached by [reset]: the
    environment reports completion at the last step and at no earlier one. *)
Definition episode (st : St) (ob : Obs) (sum_r : Q) (n : nat)
    (ret : list value) (st_end : St) : Prop :=
  exists tr last,
    plays st ob (tr ++ [last]) st_end
    /\ Forall (fun t => tr_over t = false) tr
    /\ tr_over last = true
    /\ S (length tr) = n
    /\ episode_result (total_reward sum_r (tr ++ [last])) (tr_info last) ret.

End EpisodeSpec.

(** What [play_n_episodes] needs from the tuple of an episode: a file name
    that can be printed in a column, a numeric distance error, and three
    components in each of the location, target and spacing vectors. *)
Definition printable (v : value) : bool :=
  match v with VStr _ | VInt _ | VFloat _ => true | _ => false end.

Definition is_number (v : value) : bool :=
  match v with VInt _ | VFloat _ => true | _ => false end.

Definition has3 (v : value) : bool :=
  match v with
  | VSeq (_ :: _ :: _ :: _) => true
  | VStr s => Nat.leb 3 (String.length s)
  | _ => false
  end.

Definition reportable (ret : list value) : Prop :=
  exists score filename distError loc target_loc spacing start_pos,
    ret = [VFloat score; filename; distError; loc; target_loc; spacing; start_pos]
    /\ printable filename = true /\ is_number distError = true
    /\ has3 loc = true /\ has3 target_loc = true /\ has3 spacing = true.

(** Every episode of the environment, from whatever state it is reset in,
    completes within [bound] steps under the greedy policy and reports
    metadata that can be tabulated. *)
Definition episodic {St Obs} (bound : nat) (env : Env St Obs)
    (func : Predictor Obs) (render : bool) : Prop :=
  forall st, exists ob0 st0 n ret st_end,
    env_reset env st = Ok (ob0, st0)
    /\ (n <= bound)%nat
    /\ episode env func render st0 ob0 0 n ret st_end
    /\ reportable ret.





(** Vocabulary for the threads of [eval_with_funcs]. *)
Definition started {St Obs} (w : @wstate St Obs) : bool :=
  match w with WCreated => false | _ => true end.

Definition putting {St Obs} (w : @wstate St Obs) : bool :=
  match w with WPutScore _ _ _ | WPutDist _ _ => true | _ => false end.

#[global] Instance tid_eq_dec : EqDecision tid.
Proof. solve_decision. Defined.

(** How often thread [t] is picked during the [n] scheduler steps that
    start at time [k]. *)
Fixpoint scheduled (sched : nat -> tid) (t : tid) (k n : nat) : nat :=
  match n with
  | O => 0
  | S n' => (if decide (sched k = t) then 1 else 0) + scheduled sched t (S k) n'
  end.

(** The threads of a system with [n] workers. *)
Definition valid_tid (n : nat) (t : tid) : Prop :=
  match t with
  | MainThread => True
  | WorkerThread i => (i < n)%nat
  end.

(** A fair scheduler for [n] workers picks each of the threads again and
    again. *)
Definition fair (n : nat) (sched : nat -> tid) : Prop :=
  forall t k, valid_tid n t -> exists j, (k <= j)%nat /\ sched j = t.


(** The round-robin scheduler for [n] workers. *)
Definition round_robin (n : nat) : nat -> tid :=
  fun k => match (k mod (S n))%nat with
           | O => MainThread
           | S i => WorkerThread i
           end.

(** A worker on its own: [n] of its steps in a row, the stop flag reading
    [stopped] all along. *)
Fixpoint worker_steps {St Obs} (cfg : config St Obs) (stopped : bool)
    (f : Predictor Obs) (n : nat) (x : wstate * Queue.t * Queue.t)
  : wstate * Queue.t * Queue.t :=
  match n with
  | O => x
  | S n' =>
      let '(w, q0, qd0) := x in
      match worker_step cfg stopped f w q0 qd0 with
      | Some x' => worker_steps cfg stopped f n' x'
      | None => x
      end
  end.

(** Invariant and progress measure of the system of threads. *)
Section SystemSpec.
Context {St Obs : Type}.
Variable cfg : config St Obs.

Definition zeros : Q * Q * Q * Q := (0, 0, 0, 0)%Q.

Definition returned (m : mstate) : bool :=
  match m with MReturned _ => true | _ => false end.

Definition all_started (s : @sys St Obs) : Prop :=
  Forall (fun w => started (at_ w) = true) (threads s).

Definition all_stopped (s : @sys St Obs) : Prop :=
  Forall (fun w => stop_evt w = true) (threads s).

(** What is known at each control point of the calling thread: no result
    has been collected, and the loops over [threads] have done their part. *)
Definition main_inv (s : @sys St Obs) : Prop :=
  match main s with
  | MStart k =>
      forall j w, (j < k)%nat -> threads s !! j = Some w -> started (at_ w) = true
  | MGetScore todo stat dist_stat =>
      todo = Z.to_nat (nr_eval cfg)
      /\ stat = StatCounter.empty /\ dist_stat = StatCounter.empty
      /\ all_started s
  | MGetDist _ _ _ => False
  | MStop k stat dist_stat =>
      stat = StatCounter.empty /\ dist_stat = StatCounter.empty
      /\ all_started s
      /\ forall j w, (j < k)%nat -> threads s !! j = Some w -> stop_evt w = true
  | MJoin k stat dist_stat =>
      stat = StatCounter.empty /\ dist_stat = StatCounter.empty
      /\ all_started s /\ all_stopped s
  | MDrain stat dist_stat | MDrainDist stat dist_stat =>
      stat = StatCounter.empty /\ dist_stat = StatCounter.empty
  | MReturned r => r = zeros
  | MRaised _ => False
  end.

(** No worker is inside a queue put, and both queues are empty. *)
Definition Inv (s : @sys St Obs) : Prop :=
  length (threads s) = length (predictors cfg)
  /\ Forall (fun w => putting (at_ w) = false) (threads s)
  /\ Queue.items (q s) = [] /\ Queue.items (q_dist s) = []
  /\ main_inv s.

(** The number of steps a worker can still take once its stop event is
    set. *)
Definition worker_rank (w : @wstate St Obs) : nat :=
  match w with
  | WCreated | WPutScore _ _ _ => 3
  | WStarted | WPutDist _ _ => 2
  | WLoop _ | WEpisode _ _ _ => 1
  | WReturned | WRaised _ => 0
  end.

Definition thread_rank (w : @worker St Obs) : nat :=
  if stop_evt w then worker_rank (at_ w) else 3.

Definition main_rank (n : nat) (m : mstate) : nat :=
  match m with
  | MStart k => 2 * n + 6 + (n - k)
  | MGetScore _ _ _ | MGetDist _ _ _ => 2 * n + 5
  | MStop k _ _ => n + 4 + (n - k)
  | MJoin k _ _ => 3 + (n - k)
  | MDrain _ _ => 2
  | MDrainDist _ _ => 1
  | MReturned _ | MRaised _ => 0
  end.

Definition rank (s : @sys St Obs) : nat :=
  main_rank (length (threads s)) (main s) + sum_list_with thread_rank (threads s).

(** The thread whose next step brings the call closer to its return: the
    calling thread, unless it waits in [join] for a worker still running. *)
Definition helpful (s : @sys St Obs) : tid :=
  match main s with
  | MJoin k _ _ =>
      match threads s !! k with
      | Some w => if terminated (at_ w) then MainThread else WorkerThread k
      | None => MainThread
      end
  | _ => MainThread
  end.

End SystemSpec.

(** What [j] applications of [shr_1] have made of the mantissa [m]:
    the quotient by [2^j], and in the two flags how the remainder compares
    with half of [2^j]. *)
Definition shr_inv (m j : Z) (x : shr_record) : Prop :=
  0 <= shr_m x
  /\ exists rem,
       m = shr_m x * 2 ^ j + rem /\ 0 <= rem < 2 ^ j
       /\ (shr_r x = true <-> 2 ^ j <= 2 * rem)
       /\ (shr_s x = true <-> rem <> 0 /\ 2 * rem <> 2 ^ j).

(** Vocabulary for the outcomes of the episode loop. *)
Section LoopSpec.
Context {St Obs : Type}.
Variables (env : Env St Obs) (func : Predictor Obs) (render : bool).

(** The loop variables after [n] iterations of the [while True] loop, none
    of which raised or ended the episode. *)
Fixpoint continues (n : nat) (st : St) (ob : Obs) (sum_r : Q)
  : option (St * Obs * Q) :=
  match n with
  | O => Some (st, ob, sum_r)
  | S n' =>
      match loop_body env func render st ob sum_r with
      | Ok (Continue ob' sum_r' st') => continues n' st' ob' sum_r'
      | _ => None
      end
  end.

(** The environment never reports completion and no call ever raises. *)
Definition endless : Prop :=
  forall st ob sum_r, exists ob' sum_r' st',
    loop_body env func render st ob sum_r = Ok (Continue ob' sum_r' st').

End LoopSpec.

(** The keys of [info] that the [return] statement of [play_one_episode]
    reads, in the order in which it reads them. *)
Definition info_keys : list string :=
  ["filename"; "distError"; "loc"; "target_loc"; "spacing"; "start_pos"].

(** The first of these keys that [info] does not have. *)
Definition missing_key (info : gmap string value) : option string :=
  List.find (fun k => match info !! k with None => true | Some _ => false end)
            info_keys.

(** The calling thread still awaits results (it is starting the workers or
    waits in [q.get()] with rounds left) and no worker has been told to
    stop. *)
Definition awaiting {St Obs} (s : @sys St Obs) : Prop :=
  ((exists j, main s = MStart j)
   \/ (exists todo stat dist_stat, main s = MGetScore (S todo) stat dist_stat))
  /\ Forall (fun w => stop_evt w = false) (threads s).

(** The four scalars that a trigger hands to the monitors, and a trigger
    that measured more than ten minutes. *)
Definition scalars (stats : Q * Q * Q * Q) : list (string * Q) :=
  let '(mean_score, max_score, mean_dist, max_dist) := stats in
  [("mean_score", mean_score); ("max_score", max_score);
   ("mean_distance", mean_dist); ("max_distance", max_dist)].

Definition slow (ev : Q * Q * (Q * Q * Q * Q)) : Prop :=
  let '(clock0, clock1, _) := ev in Qlt 600 (clock1 - clock0).

(** [a], [b], [c] are the first three components of the vector [v]. *)
Definition first3 (v a b c : value) : Prop :=
  index v 0 = Ok a /\ index v 1 = Ok b /\ index v 2 = Ok c.

(** What the [join] loop has achieved: the workers it has passed have
    ended, and once it is over all of them have. *)
Definition joined {St Obs} (s : @sys St Obs) : Prop :=
  match main s with
  | MJoin k _ _ =>
      forall j w, (j < k)%nat -> threads s !! j = Some w -> terminated (at_ w) = true
  | MDrain _ _ | MDrainDist _ _ | MReturned _ =>
      Forall (fun w => terminated (at_ w) = true) (threads s)
  | _ => True
  end.

(** Vocabulary for the progress of workers that are never stopped. *)
Section DeadlockSpec.
Context {St Obs : Type}.
Variable cfg : config St Obs.

(** Where a worker is once it has been started. *)
Definition awake (w : @wstate St Obs) : wstate :=
  match w with WCreated => WStarted | _ => w end.

(** A worker at [w] with predictor [f], left unstopped, has ended after at
    most [c] steps of its own. *)
Definition ends_within (f : Predictor Obs) (c : nat) (w : wstate) : bool :=
  terminated (worker_steps cfg false f c (w, Queue.new, Queue.new)).1.1.

(** [cs] bounds, worker by worker, the steps left to the workers of [s]. *)
Definition ends_in (cs : list nat) (s : @sys St Obs) : Prop :=
  Forall2 (fun w c => ends_within (_func w) c (awake (at_ w)) = true)
          (threads s) cs.

(** The steps left to the loop that starts the workers. *)
Definition start_rank (s : @sys St Obs) : nat :=
  match main s with
  | MStart k => S (length (threads s) - k)
  | _ => 0
  end.

(** No thread can move. *)
Definition deadlocked (s : @sys St Obs) : Prop :=
  forall t, sys_step cfg t s = None.

(** A call that awaits results, with the bounds [cs] on the steps left to
    its workers. *)
Definition running (cs : list nat) (s : @sys St Obs) : Prop :=
  Inv cfg s /\ awaiting s /\ ends_in cs s.

(** The caller waits in [q.get()] with all rounds to do, every worker has
    ended, and no thread can move. *)
Definition hung (s : @sys St Obs) : Prop :=
  main s = MGetScore (Z.to_nat (nr_eval cfg)) StatCounter.empty StatCounter.empty
  /\ Forall (fun w => terminated (at_ w) = true) (threads s)
  /\ deadlocked s.

End DeadlockSpec.

(* ================================================================= *)
(** * Part III: properties *)
(* ================================================================= *)

(** ** The error monad *)

Lemma bind_Ok {A B} (m : result A) (f : A -> result B) b :
  m ≫= f = Ok b <-> exists a, m = Ok a /\ f a = Ok b.
Proof.
  destruct m as [a|e]; simpl; split.
  - intros H. exists a. auto.
  - intros (a' & Ha & Hf). congruence.
  - discriminate.
  - intros (a' & Ha & _). discriminate.
Qed.

Lemma getitem_Ok {A} (l : list A) i x : getitem l i = Ok x <-> l !! i = Some x.
Proof. unfold getitem. destruct (l !! i); split; congruence. Qed.

Lemma dict_get_Ok d key v : dict_get d key = Ok v <-> d !! key = Some v.
Proof. unfold dict_get. destruct (d !! key); split; congruence. Qed.

(** ** [argmax] is the greedy choice *)

Lemma greedy_unique q a b : greedy q a -> greedy q b -> a = b.
Proof.
  intros (x & Hx & Hmax & Hfirst) (y & Hy & Hmax' & Hfirst').
  destruct (Nat.lt_trichotomy a b) as [Hlt | [Heq | Hgt]]; [|done|].
  - pose proof (Hfirst' _ _ Hlt Hx) as H1. pose proof (Hmax _ _ Hy) as H2.
    exfalso. apply (Qlt_irrefl x). eapply Qlt_le_trans; eauto.
  - pose proof (Hfirst _ _ Hgt Hy) as H1. pose proof (Hmax' _ _ Hx) as H2.
    exfalso. apply (Qlt_irrefl y). eapply Qlt_le_trans; eauto.
Qed.

Lemma argmax_from_greedy (pre l : list Q) best besti :
  (pre ++ l) !! besti = Some best ->
  (besti < length pre)%nat ->
  (forall j y, pre !! j = Some y -> Qle y best) ->
  (forall j y, (j < besti)%nat -> pre !! j = Some y -> Qlt y best) ->
  greedy (pre ++ l) (argmax_from best besti (length pre) l).
Proof.
  revert pre best besti.
  induction l as [|x l IH]; intros pre best besti Hbest Hlt Hmax Hfirst; simpl.
  - rewrite app_nil_r in *. exists best. split; [done|]. split; [done|].
    intros j y Hj Hy. eauto.
  - replace (pre ++ x :: l) with ((pre ++ [x]) ++ l) in *
      by (rewrite <- app_assoc; done).
    replace (S (length pre)) with (length (pre ++ [x]))
      by (rewrite length_app; simpl; lia).
    destruct (Qlt_le_dec best x) as [Hbx | Hxb].
    + apply IH.
      * rewrite lookup_app_l by (rewrite length_app; simpl; lia).
        rewrite lookup_app_r by lia. rewrite Nat.sub_diag. done.
      * rewrite length_app. simpl. lia.
      * intros j y Hy. apply lookup_app_Some in Hy as [Hy | [Hge Hy]].
        -- apply Qlt_le_weak. eapply Qle_lt_trans; eauto.
        -- destruct (j - length pre)%nat; simpl in Hy; [|done].
           injection Hy as <-. apply Qle_refl.
      * intros j y Hj Hy. apply lookup_app_Some in Hy as [Hy | [Hge Hy]]; [|lia].
        eapply Qle_lt_trans; eauto.
    + apply IH.
      * done.
      * rewrite length_app. simpl. lia.
      * intros j y Hy. apply lookup_app_Some in Hy as [Hy | [Hge Hy]]; [eauto|].
        destruct (j - length pre)%nat; simpl in Hy; [|done].
        injection Hy as <-. done.
      * intros j y Hj Hy. apply lookup_app_Some in Hy as [Hy | [Hge Hy]]; [eauto|].
        lia.
Qed.

Lemma argmax_greedy q act : argmax q = Ok act <-> greedy q act.
Proof.
  assert (Hfwd : forall a, argmax q = Ok a -> greedy q a).
  { intros a. destruct q as [|x l]; simpl; [discriminate|].
    intros [= <-].
    apply (argmax_from_greedy [x] l x 0%nat);
      [done | simpl; lia
      | intros [|j] y; simpl; [intros [= <-]; apply Qle_refl | done]
      | intros j y Hj; lia]. }
  split; [apply Hfwd|].
  intros Hg. destruct (argmax q) as [a|e] eqn:Ha.
  - f_equal. eapply greedy_unique; eauto.
  - destruct q; simpl in Ha; [|discriminate].
    destruct Hg as (x & Hx & _). rewrite lookup_nil in Hx. discriminate.
Qed.

(** ** [play_one_episode] *)

Section EpisodeFacts.
Context {St Obs : Type}.
Variables (env : Env St Obs) (func : Predictor Obs) (render : bool).

Lemma predict_Ok ob act q :
  predict func ob = Ok (act, q) <->
  exists out out0, func [ob] = Ok out /\ out !! 0%nat = Some out0
                   /\ out0 !! 0%nat = Some q /\ greedy q act.
Proof.
  unfold predict. split.
  - intros H. apply bind_Ok in H as (out & Hout & H).
    apply bind_Ok in H as (out0 & Hout0 & H).
    apply bind_Ok in H as (q' & Hq & H).
    apply bind_Ok in H as (a & Ha & H). injection H as -> ->.
    exists out, out0. apply getitem_Ok in Hout0. apply getitem_Ok in Hq.
    apply argmax_greedy in Ha. done.
  - intros (out & out0 & Hout & Hout0 & Hq & Hg).
    rewrite Hout. simpl. apply getitem_Ok in Hout0. apply getitem_Ok in Hq.
    rewrite Hout0. simpl. rewrite Hq. simpl.
    apply argmax_greedy in Hg. rewrite Hg. done.
Qed.

Lemma episode_return_Ok sum_r info ret :
  episode_return sum_r info = Ok ret <-> episode_result sum_r info ret.
Proof.
  unfold episode_return, episode_result. split.
  - intros H.
    apply bind_Ok in H as (v1 & H1 & H). apply bind_Ok in H as (v2 & H2 & H).
    apply bind_Ok in H as (v3 & H3 & H). apply bind_Ok in H as (v4 & H4 & H).
    apply bind_Ok in H as (v5 & H5 & H). apply bind_Ok in H as (v6 & H6 & H).
    injection H as <-. rewrite dict_get_Ok in H1, H2, H3, H4, H5, H6.
    exists v1, v2, v3, v4, v5, v6. done.
  - intros (v1 & v2 & v3 & v4 & v5 & v6 & H1 & H2 & H3 & H4 & H5 & H6 & ->).
    apply dict_get_Ok in H1, H2, H3, H4, H5, H6.
    rewrite H1; simpl. rewrite H2; simpl. rewrite H3; simpl.
    rewrite H4; simpl. rewrite H5; simpl. rewrite H6; simpl. done.
Qed.

(** One iteration of the loop is one greedy transition; it ends the episode
    exactly when the environment says so. *)
Lemma loop_body_Ok st ob sum_r it :
  loop_body env func render st ob sum_r = Ok it <->
  exists t ob' st',
    does env func render st ob t ob' st'
    /\ if tr_over t
       then exists ret, episode_result (sum_r + tr_reward t) (tr_info t) ret
                        /\ it = Return ret st'
       else it = Continue ob' (sum_r + tr_reward t)%Q st'.
Proof.
  unfold loop_body. split.
  - intros H. apply bind_Ok in H as ([act q] & Hp & H).
    apply bind_Ok in H as ([[[[ob' r] isOver] info] st1] & Hs & H).
    apply bind_Ok in H as (st' & Hr & H).
    apply predict_Ok in Hp as (out & out0 & Hout & Hout0 & Hq & Hg).
    exists {| tr_q := q; tr_act := act; tr_reward := r; tr_over := isOver;
              tr_info := info |}, ob', st'. simpl. split.
    + exists out, out0, st1. simpl. repeat split; try done.
      destruct render; [done | by injection Hr].
    + destruct isOver.
      * apply bind_Ok in H as (ret & Hret & H). injection H as <-.
        exists ret. by rewrite <- episode_return_Ok.
      * by injection H.
  - intros (t & ob' & st' & (out & out0 & st1 & Hout & Hout0 & Hq & Hg & Hs & Hr) & H).
    assert (Hp : predict func ob = Ok (tr_act t, tr_q t)).
    { apply predict_Ok. exists out, out0. done. }
    rewrite Hp. simpl. rewrite Hs. simpl.
    assert (Hr' : (if render then env_render env st1 else mret st1) = Ok st').
    { destruct render; [done | by subst]. }
    rewrite Hr'. simpl. destruct (tr_over t).
    + destruct H as (ret & Hret & ->). apply episode_return_Ok in Hret.
      rewrite Hret. done.
    + by subst.
Qed.

Lemma play_loop_episode fuel st ob sum_r ret st_end :
  play_loop fuel env func render st ob sum_r = Some (Ok (ret, st_end)) <->
  exists n, (n <= fuel)%nat /\ episode env func render st ob sum_r n ret st_end.
Proof.
  revert st ob sum_r. induction fuel as [|fuel IH]; intros st ob sum_r; simpl.
  - split; [discriminate|].
    intros (n & Hn & tr & last & _ & _ & _ & Hlen & _). lia.
  - split.
    + destruct (loop_body env func render st ob sum_r) as [it|e] eqn:Hit; [|discriminate].
      apply loop_body_Ok in Hit as (t & ob' & st' & Hdoes & Hit).
      destruct it as [ob1 sum1 st1 | ret1 st1].
      * intros H. destruct (tr_over t) eqn:Hover.
        { destruct Hit as (? & _ & ?). discriminate. }
        injection Hit as -> -> ->.
        apply IH in H as (n & Hn & tr & last & Hplays & Hall & Hlast & Hlen & Hres).
        exists (S n). split; [lia|]. exists (t :: tr), last.
        repeat split; simpl; try done.
        -- eauto.
        -- by constructor.
        -- lia.
      * intros [= -> ->]. destruct (tr_over t) eqn:Hover; [|discriminate].
        destruct Hit as (ret' & Hres & [= <- <-]).
        exists 1%nat. split; [lia|]. exists [], t. simpl.
        repeat split; try done. eauto.
    + intros (n & Hn & tr & last & Hplays & Hall & Hlast & Hlen & Hres).
      destruct tr as [|t tr]; simpl in Hplays.
      * destruct Hplays as (ob' & st' & Hdoes & ->).
        assert (Hit : loop_body env func render st ob sum_r = Ok (Return ret st')).
        { apply loop_body_Ok. exists last, ob', st'. split; [done|].
          rewrite Hlast. eauto. }
        rewrite Hit. done.
      * destruct Hplays as (ob' & st' & Hdoes & Hplays).
        apply Forall_cons in Hall as [Hover Hall].
        assert (Hit : loop_body env func render st ob sum_r
                      = Ok (Continue ob' (sum_r + tr_reward t)%Q st')).
        { apply loop_body_Ok. exists t, ob', st'. split; [done|].
          rewrite Hover. done. }
        rewrite Hit. apply IH. simpl in Hlen. exists (S (length tr)).
        split; [lia|]. exists tr, last. done.
Qed.

End EpisodeFacts.

(** C4. [play_one_episode] returns a result exactly when, after [reset],
    the environment completes an episode within the available number of
    steps under the greedy policy (every action is the first index of the
    largest predicted action value, there is no exploration): the loop runs
    until the first step at which the environment reports completion, and
    the result is the sum of the rewards of all steps followed by
    [filename], [distError], [loc], [target_loc], [spacing] and [start_pos]
    of the [info] dictionary of that last step. *)
Theorem play_one_episode_greedy_until_done {St Obs} (env : Env St Obs)
    (func : Predictor Obs) (render : bool) (fuel : nat) (st : St)
    (ret : list value) (st_end : St) :
  play_one_episode fuel env func render st = Some (Ok (ret, st_end)) <->
  exists ob0 st0 n,
    env_reset env st = Ok (ob0, st0)
    /\ (n <= fuel)%nat
    /\ episode env func render st0 ob0 0 n ret st_end.
Proof.
  unfold play_one_episode. split.
  - destruct (env_reset env st) as [[ob0 st0]|e]; [|discriminate].
    intros H. apply play_loop_episode in H as (n & Hn & Hep). eauto 6.
  - intros (ob0 & st0 & n & -> & Hn & Hep). apply play_loop_episode. eauto.
Qed.

Lemma play_one_episode_greedy_until_done_witness :
  exists ob0 st0 n,
    env_reset Stub.env 7%nat = Ok (ob0, st0)
    /\ (n <= 5)%nat
    /\ episode Stub.env Stub.pred false st0 ob0 0 n Stub.ret 2%nat.
Proof.
  apply (play_one_episode_greedy_until_done Stub.env Stub.pred false 5 7%nat).
  vm_compute. reflexivity.
Defined.

(** ** [play_n_episodes] *)

Lemma episode_row_shape k ret row :
  episode_row k ret = Ok row ->
  length row = 13%nat /\ row !! 0%nat = Some (VInt (Z.of_nat k + 1)).
Proof.
  unfold episode_row. intros H.
  apply bind_Ok in H as ([[[[[[score fn] de] loc] tl] sp] start] & _ & H).
  apply bind_Ok in H as (? & _ & H).
  do 9 (apply bind_Ok in H as (? & _ & H)).
  injection H as <-. done.
Qed.

Lemma index_has3 v i :
  has3 v = true -> (i < 3)%nat -> exists x, index v i = Ok x.
Proof.
  intros Hv Hi. destruct v as [| | |s|vs]; try discriminate; simpl in *.
  - destruct s as [|a [|b [|c s]]]; try discriminate.
    destruct i as [|[|[|i]]]; simpl; eauto; lia.
  - destruct vs as [|a [|b [|c vs]]]; try discriminate.
    destruct i as [|[|[|i]]]; simpl; eauto; lia.
Qed.

Lemma episode_row_reportable k ret :
  reportable ret -> exists row, episode_row k ret = Ok row.
Proof.
  intros (score & fn & de & loc & tl & sp & start & -> & Hfn & Hde & Hl & Ht & Hs).
  unfold episode_row, log_episode. simpl.
  assert (Hf1 : format_align fn = Ok ()) by (destruct fn; done).
  assert (Hf2 : format_fixed de = Ok ()) by (destruct de; done).
  rewrite Hf1, Hf2. simpl.
  destruct (index_has3 loc 0 Hl) as (l0 & ->); [lia|].
  destruct (index_has3 loc 1 Hl) as (l1 & ->); [lia|].
  destruct (index_has3 loc 2 Hl) as (l2 & ->); [lia|].
  destruct (index_has3 tl 0 Ht) as (t0 & ->); [lia|].
  destruct (index_has3 tl 1 Ht) as (t1 & ->); [lia|].
  destruct (index_has3 tl 2 Ht) as (t2 & ->); [lia|].
  destruct (index_has3 sp 0 Hs) as (s0 & ->); [lia|].
  destruct (index_has3 sp 1 Hs) as (s1 & ->); [lia|].
  destruct (index_has3 sp 2 Hs) as (s2 & ->); [lia|].
  simpl. eauto.
Qed.

Section EpisodesFacts.
Context {St Obs : Type}.
Variables (fuel : nat) (player : Env St Obs) (predfunc : Predictor Obs)
          (render : bool).

(** Whatever the collaborators do, a list that the loop returns extends the
    list it started from by one 13-entry row per iteration, numbered
    consecutively. *)
Lemma play_episodes_from_shape n k st acc l st' :
  play_episodes_from fuel player predfunc render n k st acc = Some (Ok (l, st')) ->
  exists rows,
    l = acc ++ rows /\ length rows = n
    /\ forall i row, rows !! i = Some row ->
         length row = 13%nat /\ row !! 0%nat = Some (VInt (Z.of_nat (k + i) + 1)).
Proof.
  revert k st acc. induction n as [|n IH]; intros k st acc; simpl.
  - intros [= <- <-]. exists []. rewrite app_nil_r. repeat split; try done.
  - destruct (play_one_episode fuel player predfunc render st)
      as [[[ret st1]|e]|]; try discriminate.
    destruct (episode_row k ret) as [row|e] eqn:Hrow; [|discriminate].
    intros H. apply IH in H as (rows & -> & Hlen & Hrows).
    exists (row :: rows). rewrite <- app_assoc. repeat split; simpl; try done.
    + lia.
    + destruct i as [|i]; simpl in H.
      * injection H as <-. by apply episode_row_shape in Hrow as [? ?].
      * by apply Hrows in H as [? ?].
    + destruct i as [|i]; simpl in H.
      * injection H as <-. apply episode_row_shape in Hrow as [_ Hrow].
        by rewrite Nat.add_0_r.
      * apply Hrows in H as [_ H]. rewrite H. do 3 f_equal. lia.
Qed.

(** With episodes that complete, the loop does return. *)
Lemma play_episodes_from_returns n k st acc :
  episodic fuel player predfunc render ->
  exists l st', play_episodes_from fuel player predfunc render n k st acc
                = Some (Ok (l, st')).
Proof.
  intros Hep. revert k st acc. induction n as [|n IH]; intros k st acc; simpl.
  - eauto.
  - destruct (Hep st) as (ob0 & st0 & m & ret & st_end & Hreset & Hm & Hepi & Hret).
    assert (Hplay : play_one_episode fuel player predfunc render st
                    = Some (Ok (ret, st_end))).
    { unfold play_one_episode. rewrite Hreset. apply play_loop_episode. eauto. }
    rewrite Hplay.
    destruct (episode_row_reportable k ret Hret) as (row & ->).
    apply IH.
Qed.

End EpisodesFacts.

(** C5. For every [nr >= 0], whatever [play_n_episodes] returns consists of
    the header followed by exactly [nr] result rows, and the first field
    ([idx_num]) of the row at position [i] (counted from 0) is [i + 1]; and
    with a deterministic predictor and environment whose episodes all
    complete, [play_n_episodes] does return such a list. *)
Theorem play_n_episodes_rows {St Obs} (fuel : nat) (player : Env St Obs)
    (predfunc : Predictor Obs) (nr : Z) (render : bool) (st : St) :
  0 <= nr ->
  (forall l st',
      play_n_episodes fuel player predfunc nr render st = Some (Ok (l, st')) ->
      exists rows,
        l = header :: rows
        /\ Z.of_nat (length rows) = nr
        /\ forall i row, rows !! i = Some row ->
             row !! 0%nat = Some (VInt (Z.of_nat i + 1)))
  /\ (episodic fuel player predfunc render ->
      exists l st',
        play_n_episodes fuel player predfunc nr render st = Some (Ok (l, st'))).
Proof.
  intros Hnr. unfold play_n_episodes. split.
  - intros l st' H. apply play_episodes_from_shape in H as (rows & -> & Hlen & Hrows).
    exists rows. repeat split; [lia|].
    intros i row Hi. by apply Hrows in Hi as [_ Hi].
  - intros Hep. by apply play_episodes_from_returns.
Qed.

Lemma stub_episodic : episodic 5 Stub.env Stub.pred false.
Proof.
  intros st.
  assert (H : play_loop 5 Stub.env Stub.pred false 0%nat 0%nat 0
              = Some (Ok (Stub.ret, 2%nat))) by (vm_compute; reflexivity).
  apply play_loop_episode in H as (n & Hn & Hepi).
  exists 0%nat, 0%nat, n, Stub.ret, 2%nat. repeat split; try done.
  repeat eexists; reflexivity.
Qed.

Lemma play_n_episodes_rows_witness :
  exists rows st',
    play_n_episodes 5 Stub.env Stub.pred 3 false 0%nat
    = Some (Ok (header :: rows, st'))
    /\ (fun row : list value => row !! 0%nat) <$> rows
       = [Some (VInt 1); Some (VInt 2); Some (VInt 3)].
Proof.
  destruct (play_n_episodes_rows 5 Stub.env Stub.pred 3 false 0%nat)
    as [Hshape Hret]; [lia|].
  destruct (Hret stub_episodic) as (l & st' & Hl).
  destruct (Hshape _ _ Hl) as (rows & -> & Hlen & Hidx).
  exists rows, st'. split; [exact Hl|].
  destruct rows as [|r1 [|r2 [|r3 [|r4 rows]]]]; simpl in Hlen; try lia.
  simpl. rewrite (Hidx 0%nat r1), (Hidx 1%nat r2), (Hidx 2%nat r3); done.
Defined.

(** C10. For every [nr >= 0], a list returned by [play_n_episodes] has
    [nr + 1] elements, starts with the header row of 13 column names, and
    every row in it has exactly 13 entries; and with a deterministic
    predictor and environment whose episodes all complete,
    [play_n_episodes] does return such a list. *)
Theorem play_n_episodes_table {St Obs} (fuel : nat) (player : Env St Obs)
    (predfunc : Predictor Obs) (nr : Z) (render : bool) (st : St) :
  0 <= nr ->
  (forall l st',
      play_n_episodes fuel player predfunc nr render st = Some (Ok (l, st')) ->
      Z.of_nat (length l) = nr + 1
      /\ l !! 0%nat = Some header
      /\ Forall (fun row => length row = 13%nat) l)
  /\ header = VStr <$> ["idx_num"; "filename"; "score"; "distance_error";
                        "final_coordinates_x"; "final_coordinates_y";
                        "final_coordinates_z";
                        "target_x"; "target_y"; "target_z";
                        "spacing_x"; "spacing_y"; "spacing_z"]
  /\ (episodic fuel player predfunc render ->
      exists l st',
        play_n_episodes fuel player predfunc nr render st = Some (Ok (l, st'))).
Proof.
  intros Hnr. unfold play_n_episodes. split; [|split; [done|]].
  - intros l st' H. apply play_episodes_from_shape in H as (rows & -> & Hlen & Hrows).
    split; [|split].
    + rewrite length_app. simpl. lia.
    + done.
    + apply Forall_app. split; [by repeat constructor|].
      apply Forall_lookup. intros i row Hi. by apply Hrows in Hi as [? _].
  - intros Hep. by apply play_episodes_from_returns.
Qed.

Lemma play_n_episodes_table_witness :
  exists l st',
    play_n_episodes 5 Stub.env Stub.pred 2 true 0%nat = Some (Ok (l, st'))
    /\ length l = 3%nat
    /\ l !! 0%nat = Some header
    /\ Forall (fun row => length row = 13%nat) l.
Proof.
  assert (Hep : episodic 5 Stub.env Stub.pred true).
  { intros st.
    assert (H : play_loop 5 Stub.env Stub.pred true 0%nat 0%nat 0
                = Some (Ok (Stub.ret, 2%nat))) by (vm_compute; reflexivity).
    apply play_loop_episode in H as (n & Hn & Hepi).
    exists 0%nat, 0%nat, n, Stub.ret, 2%nat. repeat split; try done.
    repeat eexists; reflexivity. }
  destruct (play_n_episodes_table 5 Stub.env Stub.pred 2 true 0%nat)
    as (Hshape & _ & Hret); [lia|].
  destruct (Hret Hep) as (l & st' & Hl).
  destruct (Hshape _ _ Hl) as (Hlen & Hhd & Hrows).
  exists l, st'. repeat split; try done. lia.
Defined.

(** ** The statistic counters and the result of [eval_with_funcs] *)







(** ** The worker thread *)

Section WorkerFacts.
Context {St Obs : Type}.
Variable cfg : config St Obs.

Lemma loop_body_Return_length func render st ob sum_r ret st' :
  loop_body (player_env cfg) func render st ob sum_r = Ok (Return ret st') ->
  length ret = 7%nat.
Proof.
  intros H. apply loop_body_Ok in H as (t & ob' & st2 & _ & H).
  destruct (tr_over t); [|discriminate].
  destruct H as (ret' & Hres & [= -> _]).
  by destruct Hres as (? & ? & ? & ? & ? & ? & _ & _ & _ & _ & _ & _ & ->).
Qed.

Lemma unpack4_seven ret :
  length ret = 7%nat ->
  unpack4 ret
  = Raise (Exn ValueError "wrong number of values to unpack (expected 4)").
Proof.
  destruct ret as [|a [|b [|c [|d [|e ret]]]]]; simpl; try discriminate. done.
Qed.

(** A stopped worker's guarded predictor raises, and so does the iteration
    that calls it: [play_one_episode] has no handler. *)
Lemma loop_body_stopped _func st ob sum_r :
  loop_body (player_env cfg) (Worker_func true _func) false st ob sum_r
  = Raise (Exn RuntimeError "stopped!").
Proof. reflexivity. Qed.

Lemma worker_step_completed stopped _func player ob sum_r ret player' q q_dist :
  loop_body (player_env cfg) (Worker_func stopped _func) false player ob sum_r
  = Ok (Return ret player') ->
  worker_step cfg stopped _func (WEpisode player ob sum_r) q q_dist
  = Some (WRaised (Exn ValueError "wrong number of values to unpack (expected 4)"),
          q, q_dist).
Proof.
  intros H. simpl. rewrite H.
  apply loop_body_Return_length in H. by rewrite (unpack4_seven _ H).
Qed.

(** No step of a worker leads into one of the two [queue_put_stoppable]
    calls, and outside them the queues are not touched. *)
Lemma worker_step_never_puts stopped _func w q q_dist w' q' q_dist' :
  putting w = false ->
  worker_step cfg stopped _func w q q_dist = Some (w', q', q_dist') ->
  putting w' = false /\ q' = q /\ q_dist' = q_dist.
Proof.
  intros Hw H. destruct w; simpl in *; try discriminate.
  - injection H as <- <- <-. by destruct (get_player_fn _ _ _).
  - destruct stopped; injection H as <- <- <-; [done|].
    destruct (env_reset _ _) as [[? ?]|e]; [done|].
    unfold on_exception. by destruct (is_RuntimeError e).
  - injection H as <- <- <-.
    destruct (loop_body _ _ _ _ _ _) as [[ob' s' p'|ret p']|e] eqn:Hbody.
    + done.
    + apply loop_body_Return_length in Hbody.
      by rewrite (unpack4_seven _ Hbody).
    + unfold on_exception. by destruct (is_RuntimeError e).
Qed.

(** The steps of an unstopped worker from the loop test on are a run of
    [play_one_episode] on its predictor: an exception of the episode goes to
    the handler, and a result goes to the unpacking, which fails. *)
Lemma worker_steps_play_loop _func fuel st ob sum_r r q0 qd0 :
  play_loop fuel (player_env cfg) _func false st ob sum_r = Some r ->
  worker_steps cfg false _func fuel (WEpisode st ob sum_r, q0, qd0)
  = (match r with
     | Ok _ => WRaised (Exn ValueError "wrong number of values to unpack (expected 4)")
     | Raise e => on_exception e
     end, q0, qd0).
Proof.
  revert st ob sum_r. induction fuel as [|fuel IH]; intros st ob sum_r; [done|].
  cbn [play_loop worker_steps worker_step].
  change (loop_body (player_env cfg) (Worker_func false _func) false st ob sum_r)
    with (loop_body (player_env cfg) _func false st ob sum_r).
  destruct (loop_body (player_env cfg) _func false st ob sum_r)
    as [[ob' sum' st'|ret st']|e] eqn:Hbody.
  - apply IH.
  - intros [= <-]. apply loop_body_Return_length in Hbody.
    rewrite (unpack4_seven _ Hbody). by destruct fuel.
  - intros [= <-]. unfold on_exception.
    destruct (is_RuntimeError e); by destruct fuel.
Qed.

Lemma worker_steps_play_one_episode _func fuel st r q0 qd0 :
  play_one_episode fuel (player_env cfg) _func false st = Some r ->
  worker_steps cfg false _func (S fuel) (WLoop st, q0, qd0)
  = (match r with
     | Ok _ => WRaised (Exn ValueError "wrong number of values to unpack (expected 4)")
     | Raise e => on_exception e
     end, q0, qd0).
Proof.
  unfold play_one_episode. cbn [worker_steps worker_step].
  destruct (env_reset (player_env cfg) st) as [[ob st']|e].
  - apply worker_steps_play_loop.
  - intros [= <-]. unfold on_exception.
    destruct (is_RuntimeError e); by destruct fuel.
Qed.

End WorkerFacts.

(** C1 (what the code does instead). Whenever an iteration of a worker
    completes an episode, the worker does not reach the two queue puts: the
    seven-component result of [play_one_episode] is unpacked into four
    targets, the resulting [ValueError] is not a [RuntimeError], and the
    thread ends with it, leaving both queues as they were. *)
Theorem worker_completed_episode_raises {St Obs} (cfg : config St Obs)
    (stopped : bool) (_func : Predictor Obs) (player : St) (ob : Obs)
    (sum_r : Q) (ret : list value) (player' : St) (q q_dist : Queue.t) :
  loop_body (player_env cfg) (Worker_func stopped _func) false player ob sum_r
  = Ok (Return ret player') ->
  worker_step cfg stopped _func (WEpisode player ob sum_r) q q_dist
  = Some (WRaised (Exn ValueError "wrong number of values to unpack (expected 4)"),
          q, q_dist).
Proof. apply worker_step_completed. Qed.

Lemma worker_completed_episode_raises_witness :
  loop_body Stub.env (Worker_func false Stub.pred) false 1%nat 1%nat 1
  = Ok (Return Stub.ret 2%nat)
  /\ worker_step (Stub.cfg 1 1) false Stub.pred (WEpisode 1%nat 1%nat 1)
                 Queue.new Queue.new
     = Some (WRaised (Exn ValueError "wrong number of values to unpack (expected 4)"),
             Queue.new, Queue.new).
Proof.
  assert (H : loop_body Stub.env (Worker_func false Stub.pred) false 1%nat 1%nat 1
              = Ok (Return Stub.ret 2%nat)) by (vm_compute; reflexivity).
  split; [exact H|].
  exact (worker_completed_episode_raises (Stub.cfg 1 1) false Stub.pred
           1%nat 1%nat 1 Stub.ret 2%nat Queue.new Queue.new H).
Defined.

(** ** The system of threads: invariant *)

Lemma sum_list_with_insert {A} (f : A -> nat) (l : list A) i x y :
  l !! i = Some x ->
  (sum_list_with f (<[i:=y]> l) + f x = sum_list_with f l + f y)%nat.
Proof.
  revert i. induction l as [|a l IH]; intros [|i]; simpl; try done.
  - intros [= ->]. lia.
  - intros H. specialize (IH i H). lia.
Qed.

Section SystemFacts.
Context {St Obs : Type}.
Variable cfg : config St Obs.

Lemma worker_step_started stopped f (w : wstate) q0 qd0 w' q' qd' :
  worker_step cfg stopped f w q0 qd0 = Some (w', q', qd') -> started w' = true.
Proof.
  destruct w; simpl; try discriminate.
  - intros [= <- _ _]. by destruct (get_player_fn _ _ _).
  - destruct stopped; intros [= <- _ _]; [done|].
    destruct (env_reset _ _) as [[? ?]|e]; [done|].
    unfold on_exception. by destruct (is_RuntimeError e).
  - intros [= <- _ _].
    destruct (loop_body _ _ _ _ _ _) as [[? ? ?|ret ?]|e].
    + done.
    + destruct (unpack4 ret) as [[[[? ?] ?] ?]|e]; [done|].
      unfold on_exception. by destruct (is_RuntimeError e).
    + unfold on_exception. by destruct (is_RuntimeError e).
  - destruct (queue_put_stoppable _ _ _); by intros [= <- _ _].
  - destruct (queue_put_stoppable _ _ _); by intros [= <- _ _].
Qed.

(** With the stop event set, every step of a worker brings it closer to
    the end of [run]; in particular a put is given up, whether or not the
    queue has room. *)
Lemma worker_step_stopped_rank f (w : wstate) q0 qd0 w' q' qd' :
  worker_step cfg true f w q0 qd0 = Some (w', q', qd') ->
  (worker_rank w' < worker_rank w)%nat /\ q' = q0 /\ qd' = qd0.
Proof.
  destruct w; simpl; try discriminate.
  - intros [= <- <- <-]. destruct (get_player_fn _ _ _); simpl; split; auto; lia.
  - intros [= <- <- <-]. simpl. split; auto; lia.
  - intros [= <- <- <-]. simpl. split; auto; lia.
  - intros [= <- <- <-]. simpl. split; auto; lia.
  - intros [= <- <- <-]. simpl. split; auto; lia.
Qed.

Lemma worker_rank_0 (w : @wstate St Obs) :
  worker_rank w = 0%nat <-> terminated w = true.
Proof. destruct w; simpl; split; (done || lia). Qed.

Lemma Inv_init : Inv cfg (init cfg).
Proof.
  unfold Inv, init. simpl. repeat split; try done.
  - by rewrite length_fmap.
  - apply Forall_fmap. by apply Forall_true.
  - intros j w Hj. lia.
Qed.

Lemma putting_start (w : @worker St Obs) :
  putting (at_ w) = false -> putting (at_ (start w)) = false.
Proof. unfold start. destruct (at_ w) eqn:E; simpl; rewrite ?E; done. Qed.

Lemma started_start (w : @worker St Obs) : started (at_ (start w)) = true.
Proof. unfold start. destruct (at_ w) eqn:E; simpl; rewrite ?E; done. Qed.

Lemma Inv_main_step s s' :
  Inv cfg s -> main_step cfg s = Some s' -> Inv cfg s'.
Proof.
  intros (Hlen & Hput & Hq & Hqd & Hm) Hstep.
  unfold main_step in Hstep. unfold main_inv in Hm.
  assert (Hgq : Queue.get (q s) = None) by (unfold Queue.get; by rewrite Hq).
  assert (Hgd : Queue.get (q_dist s) = None) by (unfold Queue.get; by rewrite Hqd).
  destruct (main s) as [k|todo st ds|todo st ds|k st ds|k st ds|st ds|st ds|r|e] eqn:Hmain.
  - destruct (threads s !! k) as [w|] eqn:Hk; injection Hstep as <-.
    + unfold Inv, main_inv, all_started, all_stopped, set_main in *; simpl. repeat split; try done; try (by rewrite length_insert).
      * apply Forall_insert; [done|].
        rewrite Forall_lookup in Hput. specialize (Hput _ _ Hk).
        by apply putting_start.
      * intros j w' Hj Hw'. apply list_lookup_insert_Some in Hw' as [(<- & <- & _) | (Hne & Hw')].
        -- apply started_start.
        -- apply (Hm j); [lia | done].
    + unfold Inv, main_inv, all_started, all_stopped, set_main in *; simpl. repeat split; try done; try (by rewrite length_insert).
      apply Forall_lookup. intros j w Hw. apply (Hm j); [|done].
      apply lookup_ge_None in Hk. apply lookup_lt_Some in Hw. lia.
  - destruct Hm as (-> & -> & -> & Hst).
    destruct (Z.to_nat (nr_eval cfg)); [|by rewrite Hgq in Hstep].
    injection Hstep as <-. unfold Inv, main_inv, all_started, all_stopped, set_main in *; simpl. repeat split; try done; try (by rewrite length_insert).
    intros j w Hj. lia.
  - done.
  - destruct Hm as (-> & -> & Hst & Hflags).
    destruct (threads s !! k) as [w|] eqn:Hk; injection Hstep as <-.
    + unfold Inv, main_inv, all_started, all_stopped, set_main in *; simpl. repeat split; try done; try (by rewrite length_insert).
      * apply Forall_insert; [done|].
        rewrite Forall_lookup in Hput. by apply (Hput _ _ Hk).
      * apply Forall_insert; [done|].
        rewrite Forall_lookup in Hst. by apply (Hst _ _ Hk).
      * intros j w' Hj Hw'. apply list_lookup_insert_Some in Hw' as [(<- & <- & _) | (Hne & Hw')].
        -- done.
        -- apply (Hflags j); [lia | done].
    + unfold Inv, main_inv, all_started, all_stopped, set_main in *; simpl. repeat split; try done; try (by rewrite length_insert).
      apply Forall_lookup. intros j w Hw. apply (Hflags j); [|done].
      apply lookup_ge_None in Hk. apply lookup_lt_Some in Hw. lia.
  - destruct Hm as (-> & -> & Hst & Hflags).
    destruct (threads s !! k) as [w|] eqn:Hk.
    + pose proof Hst as Hst'. unfold all_started in Hst'.
      rewrite Forall_lookup in Hst'. specialize (Hst' _ _ Hk).
      destruct (at_ w) eqn:Hat; try discriminate; simpl in Hstep;
        injection Hstep as <-; unfold Inv, main_inv, set_main in *; simpl; done.
    + injection Hstep as <-. unfold Inv, main_inv, all_started, all_stopped, set_main in *; simpl. done.
  - destruct Hm as (-> & ->). rewrite Hgq in Hstep. injection Hstep as <-.
    unfold Inv, main_inv, all_started, all_stopped, set_main in *; simpl. done.
  - destruct Hm as (-> & ->). rewrite Hgd in Hstep. injection Hstep as <-.
    unfold Inv, main_inv, all_started, all_stopped, set_main in *; simpl. done.
  - done.
  - done.
Qed.

Lemma main_inv_worker_step s i w w' :
  threads s !! i = Some w ->
  started (at_ w) = true -> started w' = true ->
  main_inv cfg s ->
  main_inv cfg {| main := main s; threads := <[i := set_at w' w]> (threads s);
                  q := q s; q_dist := q_dist s |}.
Proof.
  intros Hi Hw Hw' Hm. unfold main_inv in *. simpl.
  assert (Hst : all_started s ->
                all_started {| main := main s;
                               threads := <[i := set_at w' w]> (threads s);
                               q := q s; q_dist := q_dist s |}).
  { unfold all_started. simpl. intros H. by apply Forall_insert. }
  assert (Hsp : forall k, (forall j w0, (j < k)%nat -> threads s !! j = Some w0 ->
                                        stop_evt w0 = true) ->
                forall j w0, (j < k)%nat ->
                  <[i := set_at w' w]> (threads s) !! j = Some w0 ->
                  stop_evt w0 = true).
  { intros k H j w0 Hj Hw0.
    apply list_lookup_insert_Some in Hw0 as [(<- & <- & _) | (Hne & Hw0)]; simpl; eauto. }
  destruct (main s) as [k|todo st ds|todo st ds|k st ds|k st ds|st ds|st ds|r|e]; try done.
  - intros j w0 Hj Hw0.
    apply list_lookup_insert_Some in Hw0 as [(<- & <- & _) | (Hne & Hw0)]; simpl; eauto.
  - destruct Hm as (? & ? & ? & ?). auto.
  - destruct Hm as (? & ? & ? & ?). eauto 6.
  - destruct Hm as (? & ? & ? & Hall). repeat split; auto.
    unfold all_stopped in *. simpl. apply Forall_insert; [done|]. simpl.
    rewrite Forall_lookup in Hall. by apply (Hall _ _ Hi).
Qed.

Lemma Inv_step t s s' :
  Inv cfg s -> sys_step cfg t s = Some s' -> Inv cfg s'.
Proof.
  destruct t as [|i]; simpl; [apply Inv_main_step|].
  intros (Hlen & Hput & Hq & Hqd & Hm).
  destruct (threads s !! i) as [w|] eqn:Hi; [|discriminate].
  destruct (worker_step cfg (stop_evt w) (_func w) (at_ w) (q s) (q_dist s))
    as [[[w' q'] qd']|] eqn:Hstep; [|discriminate].
  intros [= <-].
  pose proof (worker_step_started _ _ _ _ _ _ _ _ Hstep) as Hst'.
  assert (Hst : started (at_ w) = true).
  { destruct (at_ w); try done. }
  rewrite Forall_lookup in Hput. pose proof (Hput _ _ Hi) as Hpw.
  apply worker_step_never_puts in Hstep as (Hpw' & -> & ->); [|done].
  unfold Inv. simpl. repeat split; try done; try (by rewrite length_insert).
  - apply Forall_insert; [by apply Forall_lookup|done].
  - by apply main_inv_worker_step.
Qed.

Lemma Inv_run sched k n s : Inv cfg s -> Inv cfg (run cfg sched k n s).
Proof.
  revert k s. induction n as [|n IH]; intros k s Hs; simpl; [done|].
  apply IH. unfold step_or_stay.
  destruct (sys_step cfg (sched k) s) eqn:Hstep; simpl; [|done].
  eapply Inv_step; eauto.
Qed.

(** Whatever the schedule, no worker ever enqueues anything. *)
Lemma workers_never_enqueue sched n :
  Queue.items (q (run cfg sched 0 n (init cfg))) = []
  /\ Queue.items (q_dist (run cfg sched 0 n (init cfg))) = [].
Proof.
  pose proof (Inv_run sched 0 n _ Inv_init) as (_ & _ & Hq & Hqd & _). done.
Qed.

End SystemFacts.

(** ** The system of threads: progress when no result is awaited *)

Section Progress.
Context {St Obs : Type}.
Variable cfg : config St Obs.
Hypothesis Hnr : nr_eval cfg <= 0.

Lemma worker_rank_le_3 (w : @wstate St Obs) : (worker_rank w <= 3)%nat.
Proof. destruct w; simpl; lia. Qed.

Lemma thread_rank_start (w : @worker St Obs) :
  (thread_rank (start w) <= thread_rank w)%nat.
Proof.
  unfold thread_rank, start.
  destruct (at_ w) eqn:E; simpl; rewrite ?E; destruct (stop_evt w); simpl; lia.
Qed.

Lemma thread_rank_set_stop (w : @worker St Obs) :
  (thread_rank (set_stop w) <= thread_rank w)%nat.
Proof.
  unfold thread_rank. simpl. destruct (stop_evt w); [lia|]. apply worker_rank_le_3.
Qed.

Lemma main_step_rank s s' :
  Inv cfg s -> main_step cfg s = Some s' -> (rank s' < rank s)%nat.
Proof.
  intros (Hlen & Hput & Hq & Hqd & Hm) Hstep.
  unfold main_step in Hstep. unfold main_inv in Hm. unfold rank.
  assert (Hgq : Queue.get (q s) = None) by (unfold Queue.get; by rewrite Hq).
  assert (Hgd : Queue.get (q_dist s) = None) by (unfold Queue.get; by rewrite Hqd).
  destruct (main s) as [k|todo st ds|todo st ds|k st ds|k st ds|st ds|st ds|r|e] eqn:Hmain.
  - destruct (threads s !! k) as [w|] eqn:Hk; injection Hstep as <-; simpl.
    + rewrite length_insert.
      pose proof (sum_list_with_insert thread_rank _ _ _ (start w) Hk).
      pose proof (thread_rank_start w). apply lookup_lt_Some in Hk. lia.
    + lia.
  - destruct Hm as (-> & _). replace (Z.to_nat (nr_eval cfg)) with 0%nat in Hstep by lia.
    injection Hstep as <-. simpl. lia.
  - done.
  - destruct (threads s !! k) as [w|] eqn:Hk; injection Hstep as <-; simpl.
    + rewrite length_insert.
      pose proof (sum_list_with_insert thread_rank _ _ _ (set_stop w) Hk).
      pose proof (thread_rank_set_stop w). apply lookup_lt_Some in Hk. lia.
    + lia.
  - destruct (threads s !! k) as [w|] eqn:Hk.
    + apply lookup_lt_Some in Hk.
      destruct (at_ w); simpl in Hstep; try discriminate;
        injection Hstep as <-; simpl; lia.
    + injection Hstep as <-. simpl. lia.
  - rewrite Hgq in Hstep. injection Hstep as <-. simpl. lia.
  - rewrite Hgd in Hstep. injection Hstep as <-. simpl.
    destruct (eval_return st ds); simpl; lia.
  - done.
  - done.
Qed.

Lemma worker_thread_step_rank i s s' :
  Inv cfg s -> sys_step cfg (WorkerThread i) s = Some s' ->
  main s' = main s
  /\ ((rank s' < rank s)%nat \/ (rank s' = rank s /\ helpful s' = helpful s)).
Proof.
  intros (Hlen & Hput & Hq & Hqd & Hm). simpl.
  destruct (threads s !! i) as [w|] eqn:Hi; [|discriminate].
  destruct (worker_step cfg (stop_evt w) (_func w) (at_ w) (q s) (q_dist s))
    as [[[w' q'] qd']|] eqn:Hstep; [|discriminate].
  intros [= <-]. simpl. split; [done|].
  unfold rank. simpl. rewrite length_insert.
  pose proof (sum_list_with_insert thread_rank _ _ _ (set_at w' w) Hi) as Hsum.
  destruct (stop_evt w) eqn:Hflag.
  - left. apply worker_step_stopped_rank in Hstep as (Hlt & _).
    assert (thread_rank w = worker_rank (at_ w))
      by (unfold thread_rank; by rewrite Hflag).
    assert (thread_rank (set_at w' w) = worker_rank w')
      by (unfold thread_rank; simpl; by rewrite Hflag).
    lia.
  - right.
    assert (thread_rank w = 3%nat) by (unfold thread_rank; by rewrite Hflag).
    assert (thread_rank (set_at w' w) = 3%nat)
      by (unfold thread_rank; simpl; by rewrite Hflag).
    split; [lia|]. unfold helpful. simpl.
    unfold main_inv in Hm.
    destruct (main s) as [k|todo st ds|todo st ds|k st ds|k st ds|st ds|st ds|r|e]; try done.
    destruct Hm as (_ & _ & _ & Hall). unfold all_stopped in Hall.
    rewrite Forall_lookup in Hall. specialize (Hall _ _ Hi). congruence.
Qed.

Lemma helpful_step s :
  Inv cfg s -> returned (main s) = false ->
  exists s', sys_step cfg (helpful s) s = Some s' /\ (rank s' < rank s)%nat.
Proof.
  intros HInv Hret.
  assert (Hmain : is_Some (main_step cfg s) ->
                  exists s', main_step cfg s = Some s' /\ (rank s' < rank s)%nat).
  { intros [s' Hs']. exists s'. split; [done|]. by eapply main_step_rank. }
  pose proof HInv as (Hlen & Hput & Hq & Hqd & Hm).
  assert (Hgq : Queue.get (q s) = None) by (unfold Queue.get; by rewrite Hq).
  assert (Hgd : Queue.get (q_dist s) = None) by (unfold Queue.get; by rewrite Hqd).
  unfold helpful. unfold main_inv in Hm.
  destruct (main s) as [k|todo st ds|todo st ds|k st ds|k st ds|st ds|st ds|r|e] eqn:Hmn;
    try done; simpl.
  - apply Hmain. unfold main_step. rewrite Hmn. by destruct (threads s !! k).
  - apply Hmain. unfold main_step. rewrite Hmn.
    destruct Hm as (-> & _). by replace (Z.to_nat (nr_eval cfg)) with 0%nat by lia.
  - apply Hmain. unfold main_step. rewrite Hmn. by destruct (threads s !! k).
  - destruct Hm as (_ & _ & Hst & Hall).
    destruct (threads s !! k) as [w|] eqn:Hk.
    + unfold all_started in Hst. rewrite Forall_lookup in Hst. specialize (Hst _ _ Hk).
      unfold all_stopped in Hall. rewrite Forall_lookup in Hall. specialize (Hall _ _ Hk).
      destruct (terminated (at_ w)) eqn:Hterm.
      * apply Hmain. unfold main_step. rewrite Hmn, Hk, Hterm. by destruct (at_ w).
      * assert (Hw : exists r, worker_step cfg (stop_evt w) (_func w) (at_ w)
                                           (q s) (q_dist s) = Some r).
        { rewrite Hall. destruct (at_ w); simpl in *; try done; eauto. }
        destruct Hw as ([[w' q'] qd'] & Hw).
        assert (Hstep : sys_step cfg (WorkerThread k) s
                        = Some {| main := main s;
                                  threads := <[k := set_at w' w]> (threads s);
                                  q := q'; q_dist := qd' |}).
        { simpl. by rewrite Hk, Hw. }
        eexists. split; [exact Hstep|].
        destruct (worker_thread_step_rank _ _ _ HInv Hstep) as (_ & [Hlt | (Heq & _)]);
          [done|].
        rewrite Hall in Hw. apply worker_step_stopped_rank in Hw as (Hlt & _).
        pose proof (sum_list_with_insert thread_rank _ _ _ (set_at w' w) Hk) as Hsum.
        assert (thread_rank w = worker_rank (at_ w))
          by (unfold thread_rank; by rewrite Hall).
        assert (thread_rank (set_at w' w) = worker_rank w')
          by (unfold thread_rank; simpl; by rewrite Hall).
        unfold rank in *. simpl in *. rewrite length_insert in *. lia.
    + apply Hmain. unfold main_step. by rewrite Hmn, Hk.
  - apply Hmain. unfold main_step. by rewrite Hmn, Hgq.
  - apply Hmain. unfold main_step. by rewrite Hmn, Hgd.
Qed.

Lemma step_rank t s s' :
  Inv cfg s -> sys_step cfg t s = Some s' ->
  (rank s' < rank s)%nat
  \/ (rank s' = rank s /\ helpful s' = helpful s /\ main s' = main s).
Proof.
  intros HInv Hstep. destruct t as [|i].
  - left. by eapply main_step_rank.
  - destruct (worker_thread_step_rank _ _ _ HInv Hstep) as (Hm & [Hlt | (Heq & Hh)]); auto.
Qed.

Lemma Inv_returned s r : Inv cfg s -> main s = MReturned r -> r = zeros.
Proof. intros (_ & _ & _ & _ & Hm) Hr. unfold main_inv in Hm. by rewrite Hr in Hm. Qed.

Lemma run_S sched k n s :
  run cfg sched k (S n) s = run cfg sched (S k) n (step_or_stay cfg (sched k) s).
Proof. reflexivity. Qed.

(** Under a fair scheduler the calling thread reaches its [return]. *)
Lemma helpful_valid s :
  Inv cfg s -> valid_tid (length (predictors cfg)) (helpful s).
Proof.
  intros (Hlen & _). unfold helpful.
  destruct (main s); try done. destruct (threads s !! k) as [w|] eqn:Hk; [|done].
  destruct (terminated (at_ w)); [done|]. simpl.
  apply lookup_lt_Some in Hk. lia.
Qed.

Lemma fair_run_returns sched :
  fair (length (predictors cfg)) sched ->
  forall r s k, (rank s <= r)%nat -> Inv cfg s ->
    exists n, main (run cfg sched k n s) = MReturned zeros.
Proof.
  intros Hfair. induction r as [|r IHr]; intros s k Hr HInv.
  - destruct (returned (main s)) eqn:Hret.
    + exists 0%nat. simpl. destruct (main s) eqn:Hm; try done.
      f_equal. by eapply Inv_returned.
    + destruct (helpful_step s HInv Hret) as (s' & _ & Hlt). lia.
  - destruct (returned (main s)) eqn:Hret.
    { exists 0%nat. simpl. destruct (main s) eqn:Hm; try done.
      f_equal. by eapply Inv_returned. }
    destruct (Hfair (helpful s) k (helpful_valid s HInv)) as (j & Hj & Hsched).
    replace j with (k + (j - k))%nat in Hsched by lia.
    generalize dependent (j - k)%nat. clear j Hj. intros d.
    revert s k Hr HInv Hret. induction d as [|d IHd]; intros s k Hr HInv Hret Hsched.
    + rewrite Nat.add_0_r in Hsched.
      destruct (helpful_step s HInv Hret) as (s' & Hstep & Hlt).
      destruct (IHr s' (S k)) as (n & Hn); [lia | by eapply Inv_step|].
      exists (S n). rewrite run_S. unfold step_or_stay. by rewrite Hsched, Hstep.
    + destruct (sys_step cfg (sched k) s) as [s'|] eqn:Hstep.
      * destruct (step_rank _ _ _ HInv Hstep) as [Hlt | (Heq & Hh & Hm)].
        -- destruct (IHr s' (S k)) as (n & Hn); [lia | by eapply Inv_step|].
           exists (S n). rewrite run_S. unfold step_or_stay. by rewrite Hstep.
        -- destruct (IHd s' (S k)) as (n & Hn).
           ++ lia.
           ++ by eapply Inv_step.
           ++ by rewrite Hm.
           ++ rewrite Hh. by replace (S k + d)%nat with (k + S d)%nat by lia.
           ++ exists (S n). rewrite run_S. unfold step_or_stay. by rewrite Hstep.
      * destruct (IHd s (S k)) as (n & Hn); try done.
        -- by replace (S k + d)%nat with (k + S d)%nat by lia.
        -- exists (S n). rewrite run_S. unfold step_or_stay. by rewrite Hstep.
Qed.

End Progress.

(** ** [eval_with_funcs] as a whole *)

Lemma round_robin_fair n : fair n (round_robin n).
Proof.
  intros t k Ht.
  set (i := match t with MainThread => 0%nat | WorkerThread i => S i end).
  assert (Hi : (i < S n)%nat) by (destruct t; simpl in *; lia).
  exists (i + (k / S n + 1) * S n)%nat. split.
  - pose proof (Nat.div_mod_eq k (S n)) as Hk.
    pose proof (Nat.mod_upper_bound k (S n)) as Hm. nia.
  - unfold round_robin. rewrite Nat.Div0.mod_add, Nat.mod_small by done.
    by destruct t.
Qed.

Section Whole.
Context {St Obs : Type}.
Variable cfg : config St Obs.

Lemma step_returned t s r :
  main s = MReturned r -> main (step_or_stay cfg t s) = MReturned r.
Proof.
  intros Hr. unfold step_or_stay. destruct t as [|i]; simpl.
  - unfold main_step. by rewrite Hr.
  - destruct (threads s !! i) as [w|]; [|done].
    by destruct (worker_step _ _ _ _ _ _) as [[[? ?] ?]|].
Qed.

Lemma run_returned sched k n s r :
  main s = MReturned r -> main (run cfg sched k n s) = MReturned r.
Proof.
  revert k s. induction n as [|n IH]; intros k s Hr; simpl; [done|].
  apply IH. by apply step_returned.
Qed.

Lemma run_add sched k n m s :
  run cfg sched k (n + m) s = run cfg sched (k + n) m (run cfg sched k n s).
Proof.
  revert k s. induction n as [|n IH]; intros k s; simpl.
  - by rewrite Nat.add_0_r.
  - rewrite IH. by replace (S k + n)%nat with (k + S n)%nat by lia.
Qed.

(** With a positive number of episodes to await, the call never comes
    back: the calling thread waits in [q.get()] for a score that no worker
    ever puts. *)
Lemma eval_with_funcs_blocks sched n :
  0 < nr_eval cfg -> eval_with_funcs cfg sched n = None.
Proof.
  intros Hnr. unfold eval_with_funcs.
  assert (H : forall n k s,
             Inv cfg s ->
             (exists j, main s = MStart j) \/ (exists t a b, main s = MGetScore (S t) a b) ->
             let s' := run cfg sched k n s in
             (exists j, main s' = MStart j) \/ (exists t a b, main s' = MGetScore (S t) a b)).
  { clear n. induction n as [|n IH]; intros k s HInv Hs; simpl; [done|].
    unfold step_or_stay.
    destruct (sys_step cfg (sched k) s) as [s1|] eqn:Hstep; simpl; [|by apply IH].
    apply IH; [by eapply Inv_step|].
    destruct (sched k) as [|i]; simpl in Hstep.
    - unfold main_step in Hstep.
      destruct Hs as [(j & Hj) | (t & a & b & Ht)].
      + rewrite Hj in Hstep. destruct (threads s !! j); injection Hstep as <-; simpl.
        * eauto.
        * right. exists (Nat.pred (Z.to_nat (nr_eval cfg))). do 2 eexists.
          f_equal. lia.
      + rewrite Ht in Hstep. destruct HInv as (_ & _ & Hq & _).
        unfold Queue.get in Hstep. by rewrite Hq in Hstep.
    - destruct (threads s !! i) as [w|]; [|done].
      destruct (worker_step _ _ _ _ _ _) as [[[? ?] ?]|]; [|done].
      by injection Hstep as <-. }
  destruct (H n 0%nat (init cfg) (Inv_init cfg)) as [(j & ->) | (t & a & b & ->)]; eauto.
Qed.

End Whole.

(** C3. With [nr_eval = 0], for every list of predictors and every
    environment factory: whatever the interleaving of the threads, a call of
    [eval_with_funcs] that has come back has returned exactly (0, 0, 0, 0)
    (the drain loops find nothing in the queues); and under every fair
    scheduler the call does come back, after finitely many steps. *)
Theorem eval_with_funcs_zero_episodes {St Obs} (cfg : config St Obs) :
  nr_eval cfg = 0 ->
  (forall sched n r, eval_with_funcs cfg sched n = Some r -> r = Ok zeros)
  /\ (forall sched, fair (length (predictors cfg)) sched ->
        exists n, forall m, (n <= m)%nat ->
          eval_with_funcs cfg sched m = Some (Ok zeros)).
Proof.
  intros Hnr. split.
  - intros sched n r. unfold eval_with_funcs.
    pose proof (Inv_run cfg sched 0 n _ (Inv_init cfg)) as HInv.
    destruct (main (run cfg sched 0 n (init cfg))) eqn:Hm; try discriminate.
    + intros [= <-]. f_equal. by eapply Inv_returned.
    + destruct HInv as (_ & _ & _ & _ & HInv). unfold main_inv in HInv.
      by rewrite Hm in HInv.
  - intros sched Hfair.
    destruct (fair_run_returns cfg ltac:(lia) sched Hfair _ (init cfg) 0%nat
                (Nat.le_refl _) (Inv_init cfg)) as (n & Hn).
    exists n. intros m Hm. unfold eval_with_funcs.
    replace m with (n + (m - n))%nat by lia.
    rewrite run_add. by rewrite (run_returned cfg sched _ _ _ _ Hn).
Qed.

Lemma eval_with_funcs_zero_episodes_witness :
  exists n, eval_with_funcs (Stub.cfg 2 0) (round_robin 2) n = Some (Ok zeros).
Proof.
  destruct (eval_with_funcs_zero_episodes (Stub.cfg 2 0) eq_refl) as [_ Hlive].
  destruct (Hlive (round_robin 2) (round_robin_fair 2)) as (n & Hn).
  exists n. apply Hn. lia.
Defined.

(** ** Exceptions in a worker *)

(** C7 (the claim as stated fails). The simulator of [Stub.broken_env]
    raises a [RuntimeError] of its own while the stop event is not set: it
    is not the stop condition, yet the worker catches it and returns
    instead of ending with the exception. *)
Lemma worker_catches_simulator_error :
  loop_body Stub.broken_env (Worker_func false Stub.pred) false 0%nat 0%nat 0
  = Raise (Exn RuntimeError "simulator crashed")
  /\ Exn RuntimeError "simulator crashed" <> Exn RuntimeError "stopped!"
  /\ worker_step Stub.broken_cfg false Stub.pred (WEpisode 0%nat 0%nat 0)
                 Queue.new Queue.new
     = Some (WReturned, Queue.new, Queue.new)
  /\ worker_step Stub.broken_cfg false Stub.pred (WEpisode 0%nat 0%nat 0)
                 Queue.new Queue.new
     <> Some (WRaised (Exn RuntimeError "simulator crashed"), Queue.new, Queue.new).
Proof. repeat split; (done || (vm_compute; reflexivity)). Qed.

(** C7 (amended). A worker whose stop event is set when the predictor is
    called raises [RuntimeError("stopped!")]; the episode loop does not
    handle it; the [except RuntimeError] clause of [run] does, so the thread
    returns, with the queues and the calling thread untouched.  An
    exception [e] raised during an episode by the predictor or the
    environment ([reset] or [step]) ends the thread uncaught exactly when
    [e] is not a [RuntimeError]; a [RuntimeError] of theirs is caught like
    the stop condition. *)
Theorem worker_exception_handling {St Obs} (cfg : config St Obs)
    (f : Predictor Obs) (st : St) (ob : Obs) (sum_r : Q) (q0 qd0 : Queue.t) :
  Worker_func true f [ob] = Raise (Exn RuntimeError "stopped!")
  /\ loop_body (player_env cfg) (Worker_func true f) false st ob sum_r
     = Raise (Exn RuntimeError "stopped!")
  /\ worker_step cfg true f (WEpisode st ob sum_r) q0 qd0 = Some (WReturned, q0, qd0)
  /\ (forall stopped e,
        loop_body (player_env cfg) (Worker_func stopped f) false st ob sum_r = Raise e ->
        worker_step cfg stopped f (WEpisode st ob sum_r) q0 qd0
        = Some (if is_RuntimeError e then WReturned else WRaised e, q0, qd0))
  /\ (forall e,
        env_reset (player_env cfg) st = Raise e ->
        worker_step cfg false f (WLoop st) q0 qd0
        = Some (if is_RuntimeError e then WReturned else WRaised e, q0, qd0))
  /\ (forall i s s', sys_step cfg (WorkerThread i) s = Some s' -> main s' = main s).
Proof.
  repeat split; try done.
  - intros stopped e He. simpl. by rewrite He.
  - intros e He. simpl. by rewrite He.
  - intros i s s'. simpl. destruct (threads s !! i) as [w|]; [|done].
    destruct (worker_step _ _ _ _ _ _) as [[[? ?] ?]|]; [|done].
    by intros [= <-].
Qed.

Lemma worker_exception_handling_witness :
  worker_step (Stub.cfg 1 1) true Stub.pred (WEpisode 0%nat 0%nat 0)
              Queue.new Queue.new
  = Some (WReturned, Queue.new, Queue.new)
  /\ worker_step Stub.broken_cfg false Stub.pred (WEpisode 0%nat 0%nat 0)
                 Queue.new Queue.new
     = Some (WReturned, Queue.new, Queue.new).
Proof.
  split.
  - destruct (worker_exception_handling (Stub.cfg 1 1) Stub.pred 0%nat 0%nat 0
                Queue.new Queue.new) as (_ & _ & Hstop & _).
    exact Hstop.
  - destruct (worker_exception_handling Stub.broken_cfg Stub.pred 0%nat 0%nat 0
                Queue.new Queue.new) as (_ & _ & _ & Hexn & _).
    apply (Hexn false (Exn RuntimeError "simulator crashed")).
    vm_compute. reflexivity.
Defined.

(** ** Stopping the workers *)

Section Stopping.
Context {St Obs : Type}.
Variable cfg : config St Obs.

Lemma start_started (w : @worker St Obs) :
  started (at_ w) = true -> start w = w.
Proof. unfold start. by destruct (at_ w). Qed.

(** A started worker whose stop event is set stays so under every step of
    the system, and each of its own steps lowers its rank. *)
Lemma step_stopped_worker t s i w :
  threads s !! i = Some w -> started (at_ w) = true -> stop_evt w = true ->
  exists w',
    threads (step_or_stay cfg t s) !! i = Some w'
    /\ started (at_ w') = true /\ stop_evt w' = true
    /\ (worker_rank (at_ w')
        <= worker_rank (at_ w) - (if decide (t = WorkerThread i) then 1 else 0))%nat.
Proof.
  intros Hi Hst Hstop. unfold step_or_stay.
  destruct (sys_step cfg t s) as [s'|] eqn:Hstep; simpl.
  - destruct t as [|j]; simpl in Hstep.
    + rewrite decide_False by done.
      assert (Hthreads : threads s' = threads s
                         \/ (exists j wj, threads s !! j = Some wj
                               /\ (threads s' = <[j := start wj]> (threads s)
                                   \/ threads s' = <[j := set_stop wj]> (threads s)))).
      { unfold main_step in Hstep.
        destruct (main s) as [k|[|todo] st ds|todo st ds|k st ds|k st ds|st ds|st ds|r|e].
        - destruct (threads s !! k) as [wk|] eqn:Hk; injection Hstep as <-; simpl; eauto 7.
        - injection Hstep as <-. auto.
        - destruct (Queue.get (q s)) as [[? ?]|]; [|done]. injection Hstep as <-. auto.
        - destruct (Queue.get (q_dist s)) as [[? ?]|]; [|done]. injection Hstep as <-. auto.
        - destruct (threads s !! k) as [wk|] eqn:Hk; injection Hstep as <-; simpl; eauto 7.
        - destruct (threads s !! k) as [wk|] eqn:Hk.
          + destruct (at_ wk); simpl in Hstep; try discriminate; injection Hstep as <-; auto.
          + injection Hstep as <-. auto.
        - destruct (Queue.get (q s)) as [[? ?]|]; injection Hstep as <-; auto.
        - destruct (Queue.get (q_dist s)) as [[? ?]|]; injection Hstep as <-; auto.
        - done.
        - done. }
      destruct Hthreads as [-> | (j & wj & Hj & [-> | ->])].
      * exists w. repeat split; try done. lia.
      * destruct (decide (j = i)) as [-> | Hne].
        -- rewrite list_lookup_insert_eq by (by eapply lookup_lt_Some).
           assert (wj = w) as -> by congruence. rewrite start_started by done.
           exists w. repeat split; try done. lia.
        -- rewrite list_lookup_insert_ne by done.
           exists w. repeat split; try done. lia.
      * destruct (decide (j = i)) as [-> | Hne].
        -- rewrite list_lookup_insert_eq by (by eapply lookup_lt_Some).
           assert (wj = w) as -> by congruence.
           exists (set_stop w). repeat split; try done. simpl. lia.
        -- rewrite list_lookup_insert_ne by done.
           exists w. repeat split; try done. lia.
    + destruct (threads s !! j) as [wj|] eqn:Hj; [|done].
      destruct (worker_step cfg (stop_evt wj) (_func wj) (at_ wj) (q s) (q_dist s))
        as [[[w' q'] qd']|] eqn:Hw; [|done].
      injection Hstep as <-. simpl.
      destruct (decide (j = i)) as [-> | Hne].
      * rewrite decide_True by done.
        rewrite list_lookup_insert_eq by (by eapply lookup_lt_Some).
        assert (wj = w) as -> by congruence.
        exists (set_at w' w). simpl. repeat split; try done.
        -- by eapply worker_step_started.
        -- rewrite Hstop in Hw. apply worker_step_stopped_rank in Hw as (Hlt & _). lia.
      * rewrite decide_False by congruence.
        rewrite list_lookup_insert_ne by done.
        exists w. repeat split; try done. lia.
  - exists w. repeat split; try done.
    destruct (decide (t = WorkerThread i)) as [-> | Hne]; [|lia].
    simpl in Hstep. rewrite Hi, Hstop in Hstep.
    destruct (at_ w) eqn:Hat; simpl in *; try done; try lia.
Qed.

Lemma run_stopped_worker sched i n k s w :
  threads s !! i = Some w -> started (at_ w) = true -> stop_evt w = true ->
  exists w',
    threads (run cfg sched k n s) !! i = Some w'
    /\ started (at_ w') = true /\ stop_evt w' = true
    /\ (worker_rank (at_ w')
        <= worker_rank (at_ w) - scheduled sched (WorkerThread i) k n)%nat.
Proof.
  revert k s w. induction n as [|n IH]; intros k s w Hi Hst Hstop; simpl.
  - exists w. repeat split; try done. lia.
  - destruct (step_stopped_worker (sched k) s i w Hi Hst Hstop)
      as (w1 & Hi1 & Hst1 & Hstop1 & Hr1).
    destruct (IH (S k) _ w1 Hi1 Hst1 Hstop1) as (w' & Hi' & Hst' & Hstop' & Hr').
    exists w'. repeat split; try done.
    destruct (decide (sched k = WorkerThread i)); lia.
Qed.

End Stopping.

(** C8. Stopping is cooperative and cannot deadlock.  A worker reads its
    stop event before each episode and before each queue put: with the event
    set it leaves the loop without starting an episode, and it gives up a
    put, whether or not the queue has room (while without the event a put on
    a full queue keeps waiting).  Hence, in every state of the system and
    under every scheduler, a started worker whose stop event is set has
    terminated once it has been scheduled three times, whatever the other
    threads do meanwhile; [join] on a terminated worker returns.  When the
    calling thread is in its [join] loop, every worker has been started and
    has its stop event set. *)
Theorem stopped_workers_terminate {St Obs} (cfg : config St Obs) :
  (forall f st q0 qd0,
      worker_step cfg true f (WLoop st) q0 qd0 = Some (WReturned, q0, qd0))
  /\ (forall f st score d q0 qd0,
        worker_step cfg true f (WPutScore st score d) q0 qd0
        = Some (WPutDist st d, q0, qd0))
  /\ (forall f st d q0 qd0,
        worker_step cfg true f (WPutDist st d) q0 qd0 = Some (WLoop st, q0, qd0))
  /\ (forall f st score d q0 qd0,
        Queue.put q0 score = None ->
        worker_step cfg false f (WPutScore st score d) q0 qd0
        = Some (WPutScore st score d, q0, qd0))
  /\ (forall sched k n s i w,
        threads s !! i = Some w -> started (at_ w) = true -> stop_evt w = true ->
        (3 <= scheduled sched (WorkerThread i) k n)%nat ->
        exists w', threads (run cfg sched k n s) !! i = Some w'
                   /\ terminated (at_ w') = true)
  /\ (forall s k stat dist_stat w,
        main s = MJoin k stat dist_stat -> threads s !! k = Some w ->
        terminated (at_ w) = true ->
        main_step cfg s = Some (set_main (MJoin (S k) stat dist_stat) s))
  /\ (forall sched n k stat dist_stat,
        main (run cfg sched 0 n (init cfg)) = MJoin k stat dist_stat ->
        all_started (run cfg sched 0 n (init cfg))
        /\ all_stopped (run cfg sched 0 n (init cfg))).
Proof.
  repeat split; try done.
  - intros f st score d q0 qd0 Hfull. simpl. unfold queue_put_stoppable.
    by rewrite Hfull.
  - intros sched k n s i w Hi Hst Hstop Hsched.
    destruct (run_stopped_worker cfg sched i n k s w Hi Hst Hstop)
      as (w' & Hi' & _ & _ & Hr).
    exists w'. split; [done|]. apply worker_rank_0.
    pose proof (worker_rank_le_3 (at_ w)). lia.
  - intros s k stat dist_stat w Hm Hk Hterm. unfold main_step.
    rewrite Hm, Hk, Hterm. by destruct (at_ w).
  - pose proof (Inv_run cfg sched 0 n _ (Inv_init cfg)) as (_ & _ & _ & _ & Hm).
    unfold main_inv in Hm. rewrite H in Hm. tauto.
  - pose proof (Inv_run cfg sched 0 n _ (Inv_init cfg)) as (_ & _ & _ & _ & Hm).
    unfold main_inv in Hm. rewrite H in Hm. tauto.
Qed.

Lemma stopped_workers_terminate_witness :
  let s := {| main := MJoin 0 StatCounter.empty StatCounter.empty;
              threads := [ {| _func := Stub.pred; stop_evt := true;
                              at_ := WPutScore 0%nat (VFloat 2) (VFloat (3 # 2)) |} ];
              q := Stub.full_queue; q_dist := Queue.new |} in
  exists w', threads (run (Stub.cfg 1 1) (fun _ => WorkerThread 0) 0 3 s) !! 0%nat
             = Some w'
             /\ terminated (at_ w') = true.
Proof.
  intros s.
  destruct (stopped_workers_terminate (Stub.cfg 1 1))
    as (_ & _ & _ & _ & Hterm & _).
  eapply (Hterm (fun _ => WorkerThread 0) 0%nat 3%nat s 0%nat);
    [reflexivity | reflexivity | reflexivity | vm_compute; lia].
Defined.

(** ** The result of [eval_with_funcs] *)

Section Drain.
Context {St Obs : Type}.
Variable cfg : config St Obs.




End Drain.




(** ** Binary64 rounding *)

Lemma digits2_pos_size p : digits2_pos p = Pos.size p.
Proof. induction p; simpl; congruence. Qed.

Lemma digits2_bounds p :
  2 ^ (Z.pos (digits2_pos p) - 1) <= Z.pos p < 2 ^ Z.pos (digits2_pos p).
Proof.
  rewrite digits2_pos_size.
  pose proof (Pos.size_gt p) as Hgt. pose proof (Pos.size_le p) as Hle.
  apply Pos2Z.pos_lt_pos in Hgt. apply Pos2Z.pos_le_pos in Hle.
  rewrite Pos2Z.inj_pow in Hgt, Hle.
  replace (Z.pos (Pos.size p)) with (Z.pos (Pos.size p) - 1 + 1) in Hle at 1 by lia.
  rewrite Z.pow_add_r in Hle by lia. change (2 ^ 1) with 2 in Hle.
  change (Z.pos p~0) with (2 * Z.pos p) in Hle. lia.
Qed.

Lemma digits2_unique p k :
  2 ^ (k - 1) <= Z.pos p < 2 ^ k -> Z.pos (digits2_pos p) = k.
Proof.
  intros [Hlo Hhi]. pose proof (digits2_bounds p) as [Hlo' Hhi'].
  assert (0 < k).
  { destruct (Z.lt_trichotomy k 0) as [?|[->|?]]; [|simpl in *; lia|lia].
    rewrite Z.pow_neg_r in Hhi by lia. lia. }
  destruct (Z.lt_trichotomy (Z.pos (digits2_pos p)) k) as [Hlt | [Heq | Hgt]]; [|done|].
  - assert (2 ^ Z.pos (digits2_pos p) <= 2 ^ (k - 1)) by (apply Z.pow_le_mono_r; lia).
    lia.
  - assert (2 ^ k <= 2 ^ (Z.pos (digits2_pos p) - 1)) by (apply Z.pow_le_mono_r; lia).
    lia.
Qed.

Lemma shr_1_spec m r s :
  0 <= m ->
  shr_1 {| shr_m := m; shr_r := r; shr_s := s |}
  = {| shr_m := m / 2; shr_r := Z.odd m; shr_s := r || s |}.
Proof.
  intros Hm. rewrite <- Z.div2_div.
  destruct m as [|p|p]; [done| |lia]. by destruct p.
Qed.

Lemma shr_1_inv m j x :
  0 <= j -> shr_inv m j x -> shr_inv m (j + 1) (shr_1 x).
Proof.
  intros Hj (Hm & rem & Heq & Hrem & Hr & Hs).
  destruct x as [mx r s]. simpl in Hm, Heq, Hr, Hs.
  rewrite shr_1_spec by done. unfold shr_inv. simpl.
  rewrite Z.pow_add_r by lia. change (2 ^ 1) with 2.
  pose proof (Z.div_mod mx 2 ltac:(lia)) as Hdm.
  pose proof (Z.mod_pos_bound mx 2 ltac:(lia)) as Hb.
  assert (Hodd : Z.odd mx = true <-> mx mod 2 = 1).
  { rewrite Zmod_odd. destruct (Z.odd mx); split; (done || lia). }
  assert (0 < 2 ^ j) by (apply Z.pow_pos_nonneg; lia).
  split; [apply Z.div_pos; lia|].
  exists (rem + (mx mod 2) * 2 ^ j).
  generalize dependent (2 ^ j). intros pw Heq Hrem Hr Hs Hpw.
  generalize dependent (mx / 2). intros half Hdm.
  assert (Hcase : mx mod 2 = 0 \/ mx mod 2 = 1) by lia.
  rewrite Hodd. rewrite orb_true_iff, Hr, Hs.
  destruct Hcase as [E | E]; rewrite E in *; lia.
Qed.

Lemma iter_pos_shr_inv m p : forall j x,
  0 <= j -> shr_inv m j x -> shr_inv m (j + Z.pos p) (SpecFloat.iter_pos shr_1 p x).
Proof.
  induction p as [p IH | p IH |]; intros j x Hj Hx; simpl.
  - replace (j + Z.pos p~1) with (j + 1 + Z.pos p + Z.pos p) by lia.
    apply IH; [lia|]. apply IH; [lia|]. by apply shr_1_inv.
  - replace (j + Z.pos p~0) with (j + Z.pos p + Z.pos p) by lia.
    apply IH; [lia|]. by apply IH.
  - by apply shr_1_inv.
Qed.

Lemma shr_inv_0 m : 0 <= m ->
  shr_inv m 0 {| shr_m := m; shr_r := false; shr_s := false |}.
Proof.
  intros Hm. split; [done|]. exists 0. simpl.
  split; [lia|]. split; [lia|]. split; split; (done || lia).
Qed.

(** Rounding to nearest, ties to even, moves the shifted mantissa by at
    most half a unit. *)
Lemma round_nearest_even_bound m j x :
  0 <= j -> shr_inv m j x ->
  let m2 := round_nearest_even (shr_m x) (loc_of_shr_record x) in
  shr_m x <= m2 <= shr_m x + 1
  /\ Z.abs (2 * m2 * 2 ^ j - 2 * m) <= 2 ^ j.
Proof.
  intros Hj (Hm & rem & Heq & Hrem & Hr & Hs). destruct x as [mx r s]. simpl in *.
  assert (0 < 2 ^ j) by (apply Z.pow_pos_nonneg; lia).
  destruct r, s; simpl.
  - assert (2 ^ j <= 2 * rem) by (by apply Hr). split; [lia|]. nia.
  - assert (2 ^ j <= 2 * rem) by (by apply Hr).
    assert (~ (rem <> 0 /\ 2 * rem <> 2 ^ j)) by (intros ?%Hs; done).
    destruct (Z.even mx); split; try lia; nia.
  - assert (~ 2 ^ j <= 2 * rem) by (intros ?%Hr; done). split; [lia|]. nia.
  - assert (~ 2 ^ j <= 2 * rem) by (intros ?%Hr; done).
    assert (~ (rem <> 0 /\ 2 * rem <> 2 ^ j)) by (intros ?%Hs; done).
    split; [lia|]. nia.
Qed.


Lemma pow2_le_inv a b : 0 <= b -> 2 ^ a <= 2 ^ b -> a <= b.
Proof.
  intros Hb H. destruct (Z_le_gt_dec a b) as [|Hgt]; [done|].
  assert (2 ^ (b + 1) <= 2 ^ a) by (apply Z.pow_le_mono_r; lia).
  rewrite Z.pow_add_r in * by lia. change (2 ^ 1) with 2 in *.
  assert (0 < 2 ^ b) by (apply Z.pow_pos_nonneg; lia). lia.
Qed.

Lemma shr_fexp_spec m e :
  let d := Z.pos (digits2_pos m) in
  -1074 <= d + e - 53 ->
  exists x,
    shr_fexp 53 1024 (Z.pos m) e loc_Exact = (x, e + Z.max (d - 53) 0)
    /\ shr_inv (Z.pos m) (Z.max (d - 53) 0) x.
Proof.
  intros d Hd. unfold shr_fexp, shr, fexp, emin, Zdigits2, shr_record_of_loc.
  fold d.
  replace (Z.sub (Z.max (Z.sub (Z.add d e) 53) (Z.sub (Z.sub 3 1024) 53)) e)
    with (d - 53) by lia.
  destruct (d - 53) as [|p|p] eqn:Hp.
  - eexists. split; [by rewrite Z.add_0_r|]. by apply shr_inv_0.
  - eexists. split; [by rewrite Z.max_l by lia|].
    rewrite Z.max_l by lia.
    apply (iter_pos_shr_inv (Z.pos m) p 0); [lia|]. by apply shr_inv_0.
  - eexists. split; [by rewrite Z.max_r, Z.add_0_r by lia|].
    rewrite Z.max_r by lia. by apply shr_inv_0.
Qed.

(** Rounding the positive number [m * 2^e] to binary64, away from the
    subnormal range: the result is [m3 * 2^e3] (or an infinity when [e3]
    is too large), at most half a unit of the last place away. *)
Lemma binary_round_aux_spec m e :
  let d := Z.pos (digits2_pos m) in
  -1074 <= d + e - 53 ->
  exists m3 e3,
    binary_round_aux 53 1024 false (Z.pos m) e loc_Exact
    = (if e3 <=? 971 then S754_finite false m3 e3 else S754_infinity false)
    /\ e <= e3 <= e + Z.max (d - 53) 0 + 1
    /\ Z.abs (2 * Z.pos m3 * 2 ^ (e3 - e) - 2 * Z.pos m) <= 2 ^ Z.max (d - 53) 0
    /\ Z.pos m3 < 2 ^ 53.
Proof.
  intros d Hd. subst d. unfold binary_round_aux.
  destruct (shr_fexp_spec m e Hd) as (x1 & -> & Hinv1).
  set (d := Z.pos (digits2_pos m)) in *.
  set (j := Z.max (d - 53) 0) in *.
  assert (Hj : 0 <= j) by lia.
  pose proof (round_nearest_even_bound _ _ _ Hj Hinv1) as [Hm2 Herr].
  set (m2 := round_nearest_even (shr_m x1) (loc_of_shr_record x1)) in *.
  destruct Hinv1 as (Hx1 & rem & Heq & Hrem & _).
  pose proof (digits2_bounds m) as [Hlo Hhi]. fold d in Hlo, Hhi.
  assert (Hpj : 0 < 2 ^ j) by (apply Z.pow_pos_nonneg; lia).
  (* the rounded mantissa has at most 53 bits, or is 2^53 *)
  assert (Hm2b : 0 < m2 <= 2 ^ 53 /\ (0 < d - 53 -> 2 ^ 52 <= m2) /\ (d - 53 <= 0 -> m2 = Z.pos m)).
  { destruct (Z_le_gt_dec (d - 53) 0) as [Hle | Hgt].
    - assert (j = 0) as Hj0 by lia. rewrite Hj0 in *. simpl in *.
      assert (m2 = Z.pos m) by lia.
      assert (2 ^ d <= 2 ^ 53) by (apply Z.pow_le_mono_r; lia). lia.
    - assert (j = d - 53) as Hjd by lia.
      assert (2 ^ d = 2 ^ 53 * 2 ^ j) by (rewrite <- Z.pow_add_r by lia; f_equal; lia).
      assert (2 ^ (d - 1) = 2 ^ 52 * 2 ^ j) by (rewrite <- Z.pow_add_r by lia; f_equal; lia).
      assert (2 ^ 52 <= shr_m x1 < 2 ^ 53) by nia. lia. }
  destruct Hm2b as ((Hm2pos & Hm2le) & Hm2lo & Hm2eq).
  destruct m2 as [|m2p|m2p] eqn:Em2; [lia| |lia].
  assert (Hd2 : -1074 <= Z.pos (digits2_pos m2p) + (e + j) - 53).
  { destruct (Z_le_gt_dec (d - 53) 0) as [Hle | Hgt].
    - assert (m2p = m) as -> by (specialize (Hm2eq Hle); congruence). lia.
    - pose proof (digits2_bounds m2p) as [Hlo2 Hhi2].
      assert (52 < Z.pos (digits2_pos m2p)).
      { destruct (Z_le_gt_dec (Z.pos (digits2_pos m2p)) 52) as [Hc|]; [|lia].
        assert (2 ^ Z.pos (digits2_pos m2p) <= 2 ^ 52) by (apply Z.pow_le_mono_r; lia).
        specialize (Hm2lo ltac:(lia)). lia. }
      lia. }
  destruct (shr_fexp_spec m2p (e + j) Hd2) as (x3 & -> & Hinv3).
  set (d2 := Z.pos (digits2_pos m2p)) in *.
  set (j2 := Z.max (d2 - 53) 0) in *.
  destruct Hinv3 as (Hx3 & rem3 & Heq3 & Hrem3 & _).
  pose proof (digits2_bounds m2p) as [Hlo2 Hhi2]. fold d2 in Hlo2, Hhi2.
  assert (Hd2le : d2 <= 54).
  { assert (d2 - 1 <= 53); [|lia]. apply pow2_le_inv; lia. }
  assert (Hm3 : shr_m x3 * 2 ^ j2 = Z.pos m2p /\ 0 < shr_m x3 < 2 ^ 53 /\ 0 <= j2 <= 1).
  { destruct (Z_le_gt_dec d2 53) as [Hle | Hgt].
    - assert (j2 = 0) as -> by lia. simpl in *.
      assert (2 ^ d2 <= 2 ^ 53) by (apply Z.pow_le_mono_r; lia). lia.
    - assert (d2 = 54) as Hd54 by lia. assert (j2 = 1) as -> by lia.
      rewrite Hd54 in *. change (2 ^ 1) with 2 in *. change (54 - 1) with 53 in *.
      lia. }
  destruct Hm3 as (Hm3eq & Hm3b & Hj2).
  destruct (shr_m x3) as [|m3|m3] eqn:Em3; [lia| |lia].
  exists m3, (e + j + j2). split; [|split; [|split]].
  - change (Z.sub 1024 53) with 971. unfold Z.leb.
    by destruct (e + j + j2 ?= 971).
  - lia.
  - replace (e + j + j2 - e) with (j2 + j) by lia.
    rewrite Z.pow_add_r by lia.
    replace (2 * Z.pos m3 * (2 ^ j2 * 2 ^ j)) with (2 * (Z.pos m3 * 2 ^ j2) * 2 ^ j) by ring.
    rewrite Hm3eq. done.
  - lia.
Qed.

Lemma binary_round_aux_relative m e :
  -1074 <= Z.pos (digits2_pos m) + e - 53 ->
  exists m3 e3,
    binary_round_aux 53 1024 false (Z.pos m) e loc_Exact
    = (if e3 <=? 971 then S754_finite false m3 e3 else S754_infinity false)
    /\ e <= e3 <= e + Z.max (Z.pos (digits2_pos m) - 53) 0 + 1
    /\ 2 ^ 53 * Z.abs (Z.pos m3 * 2 ^ (e3 - e) - Z.pos m) <= Z.pos m
    /\ (Z.pos m < 2 ^ 53 -> Z.pos m3 * 2 ^ (e3 - e) = Z.pos m)
    /\ Z.pos m3 < 2 ^ 53.
Proof.
  intros Hd. destruct (binary_round_aux_spec m e Hd) as (m3 & e3 & Heq & He & Herr & Hm3).
  exists m3, e3. split; [done|]. split; [done|].
  pose proof (digits2_bounds m) as [Hlo Hhi].
  set (d := Z.pos (digits2_pos m)) in *.
  set (A := Z.pos m3 * 2 ^ (e3 - e)) in *.
  replace (2 * Z.pos m3 * 2 ^ (e3 - e)) with (2 * A) in Herr by (unfold A; ring).
  destruct (Z_le_gt_dec d 53) as [Hle | Hgt].
  - rewrite Z.max_r in Herr by lia. change (2 ^ 0) with 1 in Herr.
    assert (A = Z.pos m) by lia. repeat split; try done. lia.
  - rewrite Z.max_l in Herr by lia.
    assert (2 ^ (d - 1) = 2 ^ 52 * 2 ^ (d - 53))
      by (rewrite <- Z.pow_add_r by lia; f_equal; lia).
    assert (2 ^ 53 <= 2 ^ (d - 1)) by (apply Z.pow_le_mono_r; lia).
    split; [|split; [lia | done]].
    change (2 ^ 53) with (2 * 2 ^ 52). lia.
Qed.

(** ** The product [n * 0.94] and its truncation *)

Lemma lit_0_94_eq :
  Float64.lit_0_94 = S754_finite false 8466767299456532 (-53).
Proof. vm_compute. reflexivity. Qed.

(** [float(n)] for [n > 0]: an overflow, or the double [mx * 2^ex] with
    relative error at most [2^-53], exact below [2^53].  The value is stated
    scaled by [2^52]. *)
Lemma of_int_pos n :
  0 < n ->
  (2 ^ 53 <= n /\ exists e, Float64.of_int n = Raise e)
  \/ exists mx ex,
       Float64.of_int n = Ok (S754_finite false mx ex)
       /\ -52 <= ex
       /\ Z.pos mx < 2 ^ 53
       /\ 2 ^ 53 * Z.abs (Z.pos mx * 2 ^ (ex + 52) - n * 2 ^ 52) <= n * 2 ^ 52
       /\ (n < 2 ^ 53 -> Z.pos mx * 2 ^ (ex + 52) = n * 2 ^ 52 /\ ex <= 1).
Proof.
  intros Hn. destruct n as [|pn|pn]; try lia.
  unfold Float64.of_int, Float64.prec, Float64.emax, binary_normalize, binary_round,
    shl_align, fexp, emin.
  pose proof (digits2_bounds pn) as [Hlo Hhi].
  set (d := Z.pos (digits2_pos pn)) in *.
  replace (Z.sub (Z.max (Z.sub (Z.add d 0) 53) (Z.sub (Z.sub 3 1024) 53)) 0)
    with (d - 53) by lia.
  replace (Z.max (Z.sub (Z.add d 0) 53) (Z.sub (Z.sub 3 1024) 53))
    with (d - 53) by lia.
  destruct (d - 53) as [|k|k] eqn:Hk.
  - (* exactly 53 bits *)
    destruct (binary_round_aux_relative pn 0) as (m3 & e3 & -> & He & Herr & Hex & Hm3);
      [fold d; lia|]. fold d in He. rewrite Hk in He. simpl in He.
    assert (E : (e3 <=? 971) = true) by (apply Z.leb_le; lia). rewrite E.
    right. exists m3, e3. split; [done|]. split; [lia|]. split; [done|].
    rewrite Z.sub_0_r in *.
    assert (Z.pos pn < 2 ^ 53) by (replace 53 with d by lia; done).
    specialize (Hex ltac:(done)).
    replace (Z.pos m3 * 2 ^ (e3 + 52)) with (Z.pos m3 * 2 ^ e3 * 2 ^ 52)
      by (rewrite Z.pow_add_r by lia; ring).
    rewrite Hex. split; [|split; [done | lia]].
    rewrite Z.sub_diag. simpl. lia.
  - (* more than 53 bits: rounded *)
    destruct (binary_round_aux_relative pn 0) as (m3 & e3 & -> & He & Herr & Hex & Hm3);
      [fold d; lia|].
    assert (2 ^ 53 <= 2 ^ (d - 1)) by (apply Z.pow_le_mono_r; lia).
    destruct (e3 <=? 971) eqn:E; [|left; split; [lia | eauto]].
    right. exists m3, e3. split; [done|]. split; [lia|]. split; [done|].
    rewrite Z.sub_0_r in *.
    replace (Z.pos m3 * 2 ^ (e3 + 52)) with (Z.pos m3 * 2 ^ e3 * 2 ^ 52)
      by (rewrite Z.pow_add_r by lia; ring).
    split.
    + rewrite <- Z.mul_sub_distr_r, Z.abs_mul.
      rewrite (Z.abs_eq (2 ^ 52)) by lia. nia.
    + intros Hsmall. assert (2 ^ 53 <= 2 ^ (d - 1)) by (apply Z.pow_le_mono_r; lia). lia.
  - (* fewer than 53 bits: aligned to 53 bits, exact *)
    pose proof (shift_pos_correct k pn) as Hshift. unfold shift_pos in Hshift.
    change (Z.pow_pos 2 k) with (2 ^ Z.pos k) in Hshift.
    set (mz := Pos.iter xO pn k) in *.
    assert (Hpow : 2 ^ Z.pos k * 2 ^ d = 2 ^ 53)
      by (rewrite <- Z.pow_add_r by lia; f_equal; lia).
    assert (Hpow' : 2 ^ Z.pos k * 2 ^ (d - 1) = 2 ^ 52)
      by (rewrite <- Z.pow_add_r by lia; f_equal; lia).
    assert (Hdz : Z.pos (digits2_pos mz) = 53).
    { apply digits2_unique. change (53 - 1) with 52. nia. }
    destruct (binary_round_aux_relative mz (Z.neg k))
      as (m3 & e3 & -> & He & Herr & Hex & Hm3); [lia|].
    rewrite Hdz in He. simpl in He.
    assert (E : (e3 <=? 971) = true) by (apply Z.leb_le; lia). rewrite E.
    right. exists m3, e3. split; [done|]. split; [lia|]. split; [done|].
    specialize (Hex ltac:(nia)).
    assert (Hval : Z.pos m3 * 2 ^ (e3 + 52) = Z.pos pn * 2 ^ 52).
    { replace (e3 + 52) with ((e3 - Z.neg k) + (d - 1)) by lia.
      rewrite Z.pow_add_r by lia. rewrite Z.mul_assoc, Hex, Hshift. nia. }
    rewrite Hval, Z.sub_diag. simpl. split; [lia|]. intros _. split; [done | lia].
Qed.

(** [int(x)] for a positive finite double: the floor of its value, stated
    scaled by [2^105]. *)
Lemma to_int_pos m e :
  -105 <= e ->
  exists z,
    Float64.to_int (S754_finite false m e) = Ok z
    /\ z * 2 ^ 105 <= Z.pos m * 2 ^ (e + 105) < (z + 1) * 2 ^ 105.
Proof.
  intros He. unfold Float64.to_int, cond_Zopp.
  destruct e as [|k|k].
  - eexists. split; [done|]. simpl (2 ^ 0). lia.
  - eexists. split; [done|]. rewrite Z.pow_add_r by lia. nia.
  - eexists. split; [done|].
    assert (Hp : 0 < 2 ^ Z.pos k) by (apply Z.pow_pos_nonneg; lia).
    pose proof (Z.div_mod (Z.pos m) (2 ^ Z.pos k) ltac:(lia)) as Hdm.
    pose proof (Z.mod_pos_bound (Z.pos m) (2 ^ Z.pos k) Hp) as Hb.
    assert (H105 : 2 ^ 105 = 2 ^ Z.pos k * 2 ^ (Z.neg k + 105))
      by (rewrite <- Z.pow_add_r by lia; f_equal; lia).
    assert (0 < 2 ^ (Z.neg k + 105)) by (apply Z.pow_pos_nonneg; lia).
    rewrite H105. nia.
Qed.

(** The budget after a shrink, for a positive budget [n]: with
    [M = 0.94 * 2^53] rounded, there are [X] (the double nearest to [n],
    scaled by [2^52]) and [Y] (the double nearest to the product, scaled by
    [2^105]) such that the result is the integer part of [Y / 2^105]. *)
Lemma shrink_pos n :
  0 < n ->
  match Evaluator.shrink n with
  | Raise _ => 2 ^ 53 <= n
  | Ok z =>
      exists X Y,
        2 ^ 53 * Z.abs (X - n * 2 ^ 52) <= n * 2 ^ 52
        /\ (n < 2 ^ 53 -> X = n * 2 ^ 52)
        /\ 2 ^ 53 * Z.abs (Y - 8466767299456532 * X) <= 8466767299456532 * X
        /\ z * 2 ^ 105 <= Y < (z + 1) * 2 ^ 105
  end.
Proof.
  intros Hn. unfold Evaluator.shrink, Float64.int_times.
  destruct (of_int_pos n Hn)
    as [(Hbig & e & ->) | (mx & ex & -> & Hex & Hmx & Hrel & Hexact)]; [done|].
  cbn [mbind result_bind mret result_ret].
  rewrite lit_0_94_eq. unfold Float64.mul, SFmul, Float64.prec, Float64.emax.
  cbn [xorb]. change (Z.add ex (-53)) with (ex + -53).
  set (mp := (mx * 8466767299456532)%positive).
  assert (Hmp : Z.pos mp = Z.pos mx * 8466767299456532) by (unfold mp; lia).
  pose proof (digits2_bounds mp) as [Hlo Hhi].
  assert (Hdp : Z.pos (digits2_pos mp) <= 106).
  { destruct (Z_le_gt_dec (Z.pos (digits2_pos mp)) 106) as [|Hgt]; [done|].
    assert (2 ^ 106 <= 2 ^ (Z.pos (digits2_pos mp) - 1))
      by (apply Z.pow_le_mono_r; lia).
    assert (Z.pos mp < 2 ^ 53 * 2 ^ 53) by nia.
    change (2 ^ 106) with (2 ^ 53 * 2 ^ 53) in *. lia. }
  destruct (binary_round_aux_relative mp (ex + -53))
    as (m3 & e3 & -> & He & Herr & _ & Hm3); [lia|].
  destruct (e3 <=? 971) eqn:E.
  - destruct (to_int_pos m3 e3) as (z & -> & Hz); [lia|].
    exists (Z.pos mx * 2 ^ (ex + 52)), (Z.pos m3 * 2 ^ (e3 + 105)).
    split; [done|]. split; [intros Hlt; by destruct (Hexact Hlt)|]. split; [|done].
    assert (Hp : 0 < 2 ^ (ex + 52)) by (apply Z.pow_pos_nonneg; lia).
    replace (Z.pos m3 * 2 ^ (e3 + 105))
      with (Z.pos m3 * 2 ^ (e3 - (ex + -53)) * 2 ^ (ex + 52))
      by (rewrite <- Z.mul_assoc, <- Z.pow_add_r by lia; do 2 f_equal; lia).
    replace (8466767299456532 * (Z.pos mx * 2 ^ (ex + 52)))
      with (Z.pos mp * 2 ^ (ex + 52)) by (rewrite Hmp; ring).
    rewrite <- Z.mul_sub_distr_r, Z.abs_mul, (Z.abs_eq (2 ^ (ex + 52))) by lia.
    nia.
  - simpl. apply Z.leb_gt in E.
    destruct (Z_lt_ge_dec n (2 ^ 53)) as [Hlt|]; [|lia].
    destruct (Hexact Hlt) as [_ Hex1]. lia.
Qed.

Ltac pow2_numerals :=
  repeat match goal with
         | |- context [2 ^ ?k] =>
             let v := eval vm_compute in (2 ^ k) in change (2 ^ k) with v
         | H : context [2 ^ ?k] |- _ =>
             let v := eval vm_compute in (2 ^ k) in change (2 ^ k) with v in H
         end.

(** A shrink never increases a non-negative budget, never makes it
    negative, and lowers a positive one. *)
Lemma shrink_le n :
  0 <= n ->
  match Evaluator.shrink n with
  | Ok z => 0 <= z <= n /\ (1 <= n -> z < n)
  | Raise _ => True
  end.
Proof.
  intros Hn. destruct (Z.eq_dec n 0) as [-> | Hne].
  - vm_compute. split; [split; discriminate | intros H; by destruct H].
  - pose proof (shrink_pos n ltac:(lia)) as H.
    destruct (Evaluator.shrink n) as [z|e]; [|done].
    destruct H as (X & Y & HX & _ & HY & Hz).
    pow2_numerals. lia.
Qed.

(** Up to [2^46] a shrink is the floor of 0.94 times the budget, or one
    less; the latter only for multiples of 50. *)
Lemma shrink_floor n :
  0 <= n <= 2 ^ 46 ->
  exists z,
    Evaluator.shrink n = Ok z
    /\ 94 * n / 100 - 1 <= z <= 94 * n / 100
    /\ (n mod 50 <> 0 -> z = 94 * n / 100).
Proof.
  intros Hn. destruct (Z.eq_dec n 0) as [-> | Hne].
  - exists 0. vm_compute. repeat split; (done || discriminate).
  - pose proof (shrink_pos n ltac:(lia)) as H.
    destruct (Evaluator.shrink n) as [z|e].
    + exists z. split; [done|].
      destruct H as (X & Y & _ & HX & HY & Hz).
      pow2_numerals. specialize (HX ltac:(lia)). subst X.
      pose proof (Z.div_mod (94 * n) 100 ltac:(lia)) as Hdm.
      pose proof (Z.mod_pos_bound (94 * n) 100 ltac:(lia)) as Hb.
      pose proof (Z.div_mod n 50 ltac:(lia)) as Hdm50.
      pose proof (Z.mod_pos_bound n 50 ltac:(lia)) as Hb50.
      set (F := 94 * n / 100) in *. set (r := (94 * n) mod 100) in *.
      set (k := n / 50) in *. set (t := n mod 50) in *.
      lia.
    + pow2_numerals. lia.
Qed.

(** ** The [Evaluator] callback *)










(* ================================================================= *)
(** * Part IV: further properties of the code *)
(* ================================================================= *)

(** ** Outcomes of the episode loop *)

Section LoopFacts.
Context {St Obs : Type}.
Variables (env : Env St Obs) (func : Predictor Obs) (render : bool).

(** The loop answers within [fuel] iterations exactly when one of the
    first [fuel] iterations raises or ends the episode, all earlier ones
    having continued. *)
Lemma play_loop_Some fuel st ob sum_r r :
  play_loop fuel env func render st ob sum_r = Some r <->
  exists n st1 ob1 sum1,
    (n < fuel)%nat
    /\ continues env func render n st ob sum_r = Some (st1, ob1, sum1)
    /\ match loop_body env func render st1 ob1 sum1 with
       | Raise e => r = Raise e
       | Ok (Return ret st2) => r = Ok (ret, st2)
       | Ok (Continue _ _ _) => False
       end.
Proof.
  revert st ob sum_r. induction fuel as [|fuel IH]; intros st ob sum_r; simpl.
  - split; [discriminate|]. intros (n & ? & ? & ? & Hn & _). lia.
  - split.
    + destruct (loop_body env func render st ob sum_r) as [[ob' sum' st'|ret st']|e] eqn:Hit.
      * intros H. apply IH in H as (n & st1 & ob1 & sum1 & Hn & Hc & Hl).
        exists (S n), st1, ob1, sum1. split; [lia|]. simpl. by rewrite Hit.
      * intros [= <-]. exists 0%nat, st, ob, sum_r. split; [lia|]. simpl.
        by rewrite Hit.
      * intros [= <-]. exists 0%nat, st, ob, sum_r. split; [lia|]. simpl.
        by rewrite Hit.
    + intros (n & st1 & ob1 & sum1 & Hn & Hc & Hl). destruct n as [|n]; simpl in Hc.
      * injection Hc as -> -> ->.
        destruct (loop_body env func render st1 ob1 sum1) as [[? ? ?|ret st']|e];
          [done | by subst | by subst].
      * destruct (loop_body env func render st ob sum_r) as [[ob' sum' st'|ret st']|e];
          try discriminate.
        apply IH. exists n, st1, ob1, sum1. split; [lia|]. done.
Qed.

Lemma play_loop_None fuel st ob sum_r :
  play_loop fuel env func render st ob sum_r = None <->
  is_Some (continues env func render fuel st ob sum_r).
Proof.
  revert st ob sum_r. induction fuel as [|fuel IH]; intros st ob sum_r; simpl.
  - split; [eauto | done].
  - destruct (loop_body env func render st ob sum_r) as [[ob' sum' st'|ret st']|e].
    + apply IH.
    + split; [discriminate | intros [? ?]; discriminate].
    + split; [discriminate | intros [? ?]; discriminate].
Qed.

Lemma endless_continues n st ob sum_r :
  endless env func render -> is_Some (continues env func render n st ob sum_r).
Proof.
  intros Hend. revert st ob sum_r. induction n as [|n IH]; intros st ob sum_r; simpl.
  - eauto.
  - destruct (Hend st ob sum_r) as (ob' & sum' & st' & ->). apply IH.
Qed.

End LoopFacts.

(** X1. [play_one_episode] handles no exception.  It raises [e] exactly
    when [reset] raises [e], or when, after some iterations that all went
    on to the next one, an iteration (the prediction, [step], [render] or
    the reading of [info] for the result) raises [e]: the exception comes
    out unchanged and the reward added up so far is lost. *)
Theorem play_one_episode_propagates {St Obs} (env : Env St Obs)
    (func : Predictor Obs) (render : bool) (fuel : nat) (st : St) (e : exn) :
  play_one_episode fuel env func render st = Some (Raise e) <->
  env_reset env st = Raise e
  \/ exists ob0 st0 n st1 ob1 sum1,
       env_reset env st = Ok (ob0, st0)
       /\ (n < fuel)%nat
       /\ continues env func render n st0 ob0 0 = Some (st1, ob1, sum1)
       /\ loop_body env func render st1 ob1 sum1 = Raise e.
Proof.
  unfold play_one_episode. split.
  - destruct (env_reset env st) as [[ob0 st0]|e0]; [|intros [= ->]; by left].
    intros H. apply play_loop_Some in H as (n & st1 & ob1 & sum1 & Hn & Hc & Hl).
    right. exists ob0, st0, n, st1, ob1, sum1. repeat split; try done.
    destruct (loop_body env func render st1 ob1 sum1) as [[? ? ?|? ?]|e1];
      [done | discriminate | congruence].
  - intros [-> | (ob0 & st0 & n & st1 & ob1 & sum1 & -> & Hn & Hc & Hl)]; [done|].
    apply play_loop_Some. exists n, st1, ob1, sum1. by rewrite Hl.
Qed.

(** The [return] statement reads the six keys in order: it gives the total
    reward followed by their values, or the [KeyError] of the first key that
    [info] lacks. *)
Lemma episode_return_missing_key sum_r info :
  episode_return sum_r info
  = match missing_key info with
    | Some k => Raise (Exn KeyError k)
    | None => Ok (VFloat sum_r :: ((fun k => default VNone (info !! k)) <$> info_keys))
    end.
Proof.
  unfold episode_return, missing_key, info_keys, dict_get. simpl.
  repeat (match goal with
          | |- context [info !! ?k] => destruct (info !! k); simpl; try done
          end).
Qed.

(** X2. An episode whose last step reports an [info] without one of the
    keys [filename], [distError], [loc], [target_loc], [spacing],
    [start_pos] does not return: [play_one_episode] raises the [KeyError]
    of the first of these keys that is missing.  With all six present it
    returns the total reward followed by their values. *)
Theorem play_one_episode_missing_key {St Obs} (env : Env St Obs)
    (func : Predictor Obs) (render : bool) (fuel : nat) (st : St)
    (ob0 : Obs) (st0 : St) (n : nat) (st1 : St) (ob1 : Obs) (sum1 : Q)
    (act : nat) (q_values : list Q) (ob2 : Obs) (r : Q)
    (info : gmap string value) (st2 st3 : St) :
  env_reset env st = Ok (ob0, st0) ->
  (n < fuel)%nat ->
  continues env func render n st0 ob0 0 = Some (st1, ob1, sum1) ->
  predict func ob1 = Ok (act, q_values) ->
  env_step env act q_values st1 = Ok (ob2, r, true, info, st2) ->
  (if render then env_render env st2 = Ok st3 else st3 = st2) ->
  play_one_episode fuel env func render st
  = Some match missing_key info with
         | Some k => Raise (Exn KeyError k)
         | None =>
             Ok (VFloat (sum1 + r)
                   :: ((fun k => default VNone (info !! k)) <$> info_keys), st3)
         end.
Proof.
  intros Hreset Hn Hc Hp Hs Hr. unfold play_one_episode. rewrite Hreset.
  apply play_loop_Some. exists n, st1, ob1, sum1. split; [done|]. split; [done|].
  unfold loop_body. rewrite Hp. simpl. rewrite Hs. simpl.
  assert (Hr' : (if render then env_render env st2 else mret st2) = Ok st3).
  { destruct render; [done | by subst]. }
  rewrite Hr'. simpl. rewrite episode_return_missing_key.
  by destruct (missing_key info).
Qed.

Lemma play_one_episode_missing_key_witness :
  play_one_episode 3 Cases.partial_env Stub.pred false 0%nat
  = Some (Raise (Exn KeyError "distError")).
Proof.
  apply (play_one_episode_missing_key Cases.partial_env Stub.pred false 3 0%nat
           0%nat 0%nat 0%nat 0%nat 0%nat 0 1%nat [1 # 2; 3; 2]%Q 0%nat 1
           Cases.partial_info 1%nat 1%nat);
    (reflexivity || lia).
Defined.

(** X3. There is no limit on the length of an episode: with an environment
    that never reports completion (and collaborators that never raise),
    [play_one_episode] gives no answer however many iterations it is
    allowed, and neither does [play_n_episodes] for one episode or more. *)
Theorem play_one_episode_no_timeout {St Obs} (env : Env St Obs)
    (func : Predictor Obs) (render : bool) (fuel : nat) (st : St) (nr : Z) :
  endless env func render ->
  (exists ob0 st0, env_reset env st = Ok (ob0, st0)) ->
  play_one_episode fuel env func render st = None
  /\ (0 < nr -> play_n_episodes fuel env func nr render st = None).
Proof.
  intros Hend (ob0 & st0 & Hreset).
  assert (Hone : play_one_episode fuel env func render st = None).
  { unfold play_one_episode. rewrite Hreset. apply play_loop_None.
    by apply endless_continues. }
  split; [done|]. intros Hnr. unfold play_n_episodes.
  destruct (Z.to_nat nr) as [|k] eqn:Hk; [lia|]. simpl. by rewrite Hone.
Qed.

Lemma play_one_episode_no_timeout_witness :
  play_one_episode 1000 Cases.endless_env Stub.pred true 0%nat = None
  /\ (0 < 1 -> play_n_episodes 1000 Cases.endless_env Stub.pred 1 true 0%nat = None).
Proof.
  apply (play_one_episode_no_timeout Cases.endless_env Stub.pred true 1000 0%nat 1).
  - intros st ob sum_r. do 3 eexists. reflexivity.
  - do 2 eexists. reflexivity.
Defined.

(** ** Sequences of episodes *)

Section EpisodesMore.
Context {St Obs : Type}.
Variables (fuel : nat) (player : Env St Obs) (predfunc : Predictor Obs)
          (render : bool).

(** [a + b] iterations of the [for] loop are [a] iterations followed by
    [b] more, which start from the state and the rows left by the first
    [a]; an exception or a missing answer in the first part is the outcome
    of the whole. *)
Lemma play_episodes_from_add a b k st acc :
  play_episodes_from fuel player predfunc render (a + b) k st acc
  = match play_episodes_from fuel player predfunc render a k st acc with
    | Some (Ok (l, st1)) =>
        play_episodes_from fuel player predfunc render b (k + a) st1 l
    | Some (Raise e) => Some (Raise e)
    | None => None
    end.
Proof.
  revert k st acc. induction a as [|a IH]; intros k st acc; simpl.
  - by rewrite Nat.add_0_r.
  - destruct (play_one_episode fuel player predfunc render st) as [[[ret st']|e]|];
      [|done|done].
    destruct (episode_row k ret) as [row|e]; [|done].
    rewrite IH. by replace (S k + a)%nat with (k + S a)%nat by lia.
Qed.

Lemma play_n_episodes_add a b st :
  0 <= a -> 0 <= b ->
  play_n_episodes fuel player predfunc (a + b) render st
  = match play_n_episodes fuel player predfunc a render st with
    | Some (Ok (l, st1)) =>
        play_episodes_from fuel player predfunc render (Z.to_nat b) (Z.to_nat a) st1 l
    | Some (Raise e) => Some (Raise e)
    | None => None
    end.
Proof.
  intros Ha Hb. unfold play_n_episodes.
  rewrite Z2Nat.inj_add by done. by rewrite play_episodes_from_add.
Qed.

End EpisodesMore.

(** X4. [play_n_episodes] is all or nothing, and longer runs extend shorter
    ones.  For [a, b >= 0]: when the run of [a] episodes raises, or does
    not come back, so does the run of [a + b] episodes from the same state;
    and a list returned for [a + b] episodes begins with the list returned
    for [a] episodes.  For [nr <= 0] the result is the header alone and the
    environment is not touched. *)
Theorem play_n_episodes_prefix {St Obs} (fuel : nat) (player : Env St Obs)
    (predfunc : Predictor Obs) (render : bool) (a b : Z) (st : St) :
  0 <= a -> 0 <= b ->
  (forall e, play_n_episodes fuel player predfunc a render st = Some (Raise e) ->
             play_n_episodes fuel player predfunc (a + b) render st = Some (Raise e))
  /\ (play_n_episodes fuel player predfunc a render st = None ->
      play_n_episodes fuel player predfunc (a + b) render st = None)
  /\ (forall l' st',
        play_n_episodes fuel player predfunc (a + b) render st = Some (Ok (l', st')) ->
        exists l st1 rows,
          play_n_episodes fuel player predfunc a render st = Some (Ok (l, st1))
          /\ l' = l ++ rows /\ Z.of_nat (length rows) = b)
  /\ (forall nr, nr <= 0 ->
        play_n_episodes fuel player predfunc nr render st = Some (Ok ([header], st))).
Proof.
  intros Ha Hb. rewrite (play_n_episodes_add fuel player predfunc render a b st Ha Hb).
  split; [by intros e ->|]. split; [by intros ->|]. split.
  - intros l' st'.
    destruct (play_n_episodes fuel player predfunc a render st) as [[[l st1]|e]|];
      [|done|done].
    intros H. apply play_episodes_from_shape in H as (rows & -> & Hlen & _).
    exists l, st1, rows. repeat split; try done. lia.
  - intros nr Hnr. unfold play_n_episodes.
    by replace (Z.to_nat nr) with 0%nat by lia.
Qed.

Lemma play_n_episodes_prefix_witness :
  play_n_episodes 5 Cases.two_case_env Stub.pred 5 false 0%nat
  = Some (Raise (Exn IndexError "list index out of range")).
Proof.
  destruct (play_n_episodes_prefix 5 Cases.two_case_env Stub.pred false 3 2 0%nat)
    as (Hraise & _); [lia | lia |].
  apply (Hraise (Exn IndexError "list index out of range")).
  vm_compute. reflexivity.
Defined.

(** X5. When [play_n_episodes] raises.  For [nr >= 0] the call raises [e]
    exactly when, for some [k < nr], the first [k] episodes are played and
    tabulated, and then either episode [k + 1] raises [e], or it returns a
    result whose log line or table row cannot be built ([e] is the error of
    that).  The rows of the [k] earlier episodes are not returned. *)
Theorem play_n_episodes_raises {St Obs} (fuel : nat) (player : Env St Obs)
    (predfunc : Predictor Obs) (render : bool) (nr : Z) (st : St) (e : exn) :
  0 <= nr ->
  (play_n_episodes fuel player predfunc nr render st = Some (Raise e) <->
   exists k l st1,
     0 <= k < nr
     /\ play_n_episodes fuel player predfunc k render st = Some (Ok (l, st1))
     /\ (play_one_episode fuel player predfunc render st1 = Some (Raise e)
         \/ exists ret st2,
              play_one_episode fuel player predfunc render st1 = Some (Ok (ret, st2))
              /\ episode_row (Z.to_nat k) ret = Raise e)).
Proof.
  intros Hnr. split.
  - pattern nr. apply natlike_ind; [| |exact Hnr].
    + discriminate.
    + intros x Hx IH.
      replace (Z.succ x) with (x + 1) by lia.
      rewrite (play_n_episodes_add fuel player predfunc render x 1 st Hx ltac:(lia)).
      destruct (play_n_episodes fuel player predfunc x render st)
        as [[[l st1]|e0]|] eqn:Hx'; [| |done].
      * intros H. exists x, l, st1. split; [lia|]. split; [done|].
        simpl in H.
        destruct (play_one_episode fuel player predfunc render st1)
          as [[[ret st2]|e1]|]; [| left; congruence | done].
        destruct (episode_row (Z.to_nat x) ret) as [row|e1] eqn:Hrow; [done|].
        right. exists ret, st2. split; [done|]. congruence.
      * intros [= ->]. destruct (IH eq_refl) as (k & l & st1 & Hk & Hl & Hor).
        exists k, l, st1. split; [lia|]. done.
  - intros (k & l & st1 & Hk & Hl & Hor).
    replace nr with (k + 1 + (nr - k - 1)) by lia.
    rewrite (play_n_episodes_add fuel player predfunc render (k + 1) (nr - k - 1) st)
      by lia.
    rewrite (play_n_episodes_add fuel player predfunc render k 1 st) by lia.
    rewrite Hl. simpl.
    destruct Hor as [-> | (ret & st2 & -> & ->)]; done.
Qed.

Lemma play_n_episodes_raises_witness :
  play_n_episodes 5 Cases.two_case_env Stub.pred 3 false 0%nat
  = Some (Raise (Exn IndexError "list index out of range")).
Proof.
  apply (play_n_episodes_raises 5 Cases.two_case_env Stub.pred false 3 0%nat);
    [lia|].
  exists 2. do 2 eexists. split; [lia|]. split; [vm_compute; reflexivity|].
  left. vm_compute. reflexivity.
Defined.

(** ** The threads of [eval_with_funcs] *)

Section SystemMore.
Context {St Obs : Type}.
Variable cfg : config St Obs.

Lemma awaiting_step t s s' :
  0 < nr_eval cfg -> Inv cfg s -> awaiting s ->
  sys_step cfg t s = Some s' -> awaiting s'.
Proof.
  intros Hnr HInv [Hm Hstop] Hstep. destruct t as [|i]; simpl in Hstep.
  - unfold main_step in Hstep. destruct Hm as [(j & Hj) | (todo & a & b & Ht)].
    + rewrite Hj in Hstep. destruct (threads s !! j) as [w|] eqn:Hw;
        injection Hstep as <-; split; simpl.
      * eauto.
      * apply Forall_insert; [done|].
        rewrite Forall_lookup in Hstop. pose proof (Hstop _ _ Hw) as Hf.
        unfold start. by destruct (at_ w).
      * right. exists (Nat.pred (Z.to_nat (nr_eval cfg))). do 2 eexists.
        f_equal. lia.
      * done.
    + rewrite Ht in Hstep. destruct HInv as (_ & _ & Hq & _).
      unfold Queue.get in Hstep. by rewrite Hq in Hstep.
  - destruct (threads s !! i) as [w|] eqn:Hw; [|done].
    destruct (worker_step _ _ _ _ _ _) as [[[w' ?] ?]|]; [|done].
    injection Hstep as <-. split; simpl; [done|].
    apply Forall_insert; [done|].
    rewrite Forall_lookup in Hstop. by apply (Hstop _ _ Hw).
Qed.

Lemma awaiting_run sched k n s :
  0 < nr_eval cfg -> Inv cfg s -> awaiting s -> awaiting (run cfg sched k n s).
Proof.
  intros Hnr. revert k s. induction n as [|n IH]; intros k s HInv Ha; simpl; [done|].
  unfold step_or_stay.
  destruct (sys_step cfg (sched k) s) as [s1|] eqn:Hstep; simpl; [|by apply IH].
  apply IH; [by eapply Inv_step | by eapply awaiting_step].
Qed.

Lemma awaiting_init : awaiting (init cfg).
Proof.
  split; [left; by exists 0%nat|]. simpl. apply Forall_fmap. by apply Forall_true.
Qed.

(** One step of the system and worker [i]: its predictor stays, a set stop
    event stays set, a started thread stays started, and a thread that has
    ended stays as it ended. *)
Lemma step_worker_lifecycle t s i w :
  threads s !! i = Some w ->
  exists w',
    threads (step_or_stay cfg t s) !! i = Some w'
    /\ _func w' = _func w
    /\ (stop_evt w = true -> stop_evt w' = true)
    /\ (started (at_ w) = true -> started (at_ w') = true)
    /\ (terminated (at_ w) = true -> at_ w' = at_ w).
Proof.
  intros Hi. unfold step_or_stay.
  destruct (sys_step cfg t s) as [s'|] eqn:Hstep; simpl; [|by exists w].
  assert (Hlt : (i < length (threads s))%nat) by (by eapply lookup_lt_Some).
  destruct t as [|j]; simpl in Hstep.
  - unfold main_step in Hstep.
    destruct (main s) as [k|[|todo] st ds|todo st ds|k st ds|k st ds|st ds|st ds|r|e];
      try discriminate.
    + destruct (threads s !! k) as [wk|] eqn:Hk; injection Hstep as <-; simpl;
        [|by exists w].
      destruct (decide (k = i)) as [->|Hne].
      * rewrite list_lookup_insert_eq by done. exists (start wk).
        assert (wk = w) as -> by congruence.
        split; [done|]. unfold start.
        destruct (at_ w) eqn:Hat; simpl; rewrite ?Hat; done.
      * rewrite list_lookup_insert_ne by done. by exists w.
    + injection Hstep as <-. by exists w.
    + destruct (Queue.get (q s)) as [[? ?]|]; [|done]. injection Hstep as <-.
      by exists w.
    + destruct (Queue.get (q_dist s)) as [[? ?]|]; [|done]. injection Hstep as <-.
      by exists w.
    + destruct (threads s !! k) as [wk|] eqn:Hk; injection Hstep as <-; simpl;
        [|by exists w].
      destruct (decide (k = i)) as [->|Hne].
      * rewrite list_lookup_insert_eq by done. exists (set_stop wk).
        assert (wk = w) as -> by congruence. done.
      * rewrite list_lookup_insert_ne by done. by exists w.
    + destruct (threads s !! k) as [wk|] eqn:Hk.
      * destruct (at_ wk); simpl in Hstep; try discriminate;
          injection Hstep as <-; by exists w.
      * injection Hstep as <-. by exists w.
    + destruct (Queue.get (q s)) as [[? ?]|]; injection Hstep as <-; by exists w.
    + destruct (Queue.get (q_dist s)) as [[? ?]|]; injection Hstep as <-; by exists w.
  - destruct (threads s !! j) as [wj|] eqn:Hj; [|done].
    destruct (worker_step cfg (stop_evt wj) (_func wj) (at_ wj) (q s) (q_dist s))
      as [[[w' q'] qd']|] eqn:Hw; [|done].
    injection Hstep as <-. simpl.
    destruct (decide (j = i)) as [->|Hne].
    + rewrite list_lookup_insert_eq by done. exists (set_at w' wj).
      assert (wj = w) as -> by congruence.
      split; [done|]. split; [done|]. split; [done|]. split.
      * intros _. simpl. by eapply worker_step_started.
      * intros Hterm. by destruct (at_ w).
    + rewrite list_lookup_insert_ne by done. by exists w.
Qed.

End SystemMore.

Lemma worker_steps_continues {St Obs} (cfg : config St Obs) (f : Predictor Obs)
    n st ob sum_r st1 ob1 sum1 q0 qd0 :
  continues (player_env cfg) f false n st ob sum_r = Some (st1, ob1, sum1) ->
  worker_steps cfg false f n (WEpisode st ob sum_r, q0, qd0)
  = (WEpisode st1 ob1 sum1, q0, qd0).
Proof.
  revert st ob sum_r. induction n as [|n IH]; intros st ob sum_r; simpl.
  - by intros [= -> -> ->].
  - change (loop_body (player_env cfg) (Worker_func false f) false st ob sum_r)
      with (loop_body (player_env cfg) f false st ob sum_r).
    destruct (loop_body (player_env cfg) f false st ob sum_r)
      as [[ob' sum' st'|? ?]|?]; try discriminate.
    apply IH.
Qed.

(** X6. Whatever the predictors, the environments, the number of episodes
    asked for and the interleaving of the threads: at every moment of a call
    of [eval_with_funcs] both queues are empty and no worker is inside a
    queue put; the call does not end with an exception, and the only value
    it can return is (0, 0, 0, 0). *)
Theorem eval_with_funcs_collects_nothing {St Obs} (cfg : config St Obs)
    (sched : nat -> tid) (n : nat) :
  let s := run cfg sched 0 n (init cfg) in
  Queue.items (q s) = [] /\ Queue.items (q_dist s) = []
  /\ Forall (fun w => putting (at_ w) = false) (threads s)
  /\ (forall r, eval_with_funcs cfg sched n = Some r -> r = Ok zeros).
Proof.
  intros s. pose proof (Inv_run cfg sched 0 n _ (Inv_init cfg)) as HInv.
  fold s in HInv. destruct HInv as (_ & Hput & Hq & Hqd & Hm).
  repeat split; try done.
  intros r. unfold eval_with_funcs. fold s. unfold main_inv in Hm.
  destruct (main s); try discriminate.
  - intros [= <-]. by subst.
  - done.
Qed.

(** X7. When a positive number of episodes is asked for, the call of
    [eval_with_funcs] never comes back, whatever the predictors, the
    environments and the interleaving of the threads: the calling thread
    stays in the loop that starts the workers or in [q.get()], with all
    [nr_eval] rounds still to do, and no worker is ever told to stop. *)
Theorem eval_with_funcs_positive_never_returns {St Obs} (cfg : config St Obs)
    (sched : nat -> tid) (n : nat) :
  0 < nr_eval cfg ->
  let s := run cfg sched 0 n (init cfg) in
  eval_with_funcs cfg sched n = None
  /\ ((exists k, main s = MStart k)
      \/ main s = MGetScore (Z.to_nat (nr_eval cfg))
                            StatCounter.empty StatCounter.empty)
  /\ Forall (fun w => stop_evt w = false) (threads s).
Proof.
  intros Hnr s.
  pose proof (Inv_run cfg sched 0 n _ (Inv_init cfg)) as HInv.
  pose proof (awaiting_run cfg sched 0 n _ Hnr (Inv_init cfg) (awaiting_init cfg))
    as [Hm Hstop].
  fold s in HInv, Hm. destruct HInv as (_ & _ & _ & _ & Hmi).
  split; [|split; [|done]].
  - unfold eval_with_funcs. fold s.
    by destruct Hm as [(j & ->) | (todo & a & b & ->)].
  - destruct Hm as [(j & Hj) | (todo & a & b & Ht)]; [eauto|].
    right. unfold main_inv in Hmi. rewrite Ht in Hmi. rewrite Ht.
    destruct Hmi as (Heq & -> & -> & _). by rewrite Heq.
Qed.

Lemma eval_with_funcs_positive_never_returns_witness :
  eval_with_funcs (Stub.cfg 2 3) (round_robin 2) 500 = None.
Proof.
  destruct (eval_with_funcs_positive_never_returns (Stub.cfg 2 3) (round_robin 2) 500)
    as [Hnone _]; [simpl; lia | exact Hnone].
Defined.

(** X8. The life cycle of a worker only moves forward.  Along every run of
    the system, from any state: a worker keeps the predictor it was built
    with; once its stop event is set it stays set; once started it stays
    started; and once its [run] has ended (by returning or by an exception)
    it never moves again. *)
Theorem worker_lifecycle_monotone {St Obs} (cfg : config St Obs)
    (sched : nat -> tid) (k n : nat) (s : sys) (i : nat) (w : worker) :
  threads s !! i = Some w ->
  exists w',
    threads (run cfg sched k n s) !! i = Some w'
    /\ _func w' = _func w
    /\ (stop_evt w = true -> stop_evt w' = true)
    /\ (started (at_ w) = true -> started (at_ w') = true)
    /\ (terminated (at_ w) = true -> at_ w' = at_ w).
Proof.
  revert k s w. induction n as [|n IH]; intros k s w Hi; simpl.
  - by exists w.
  - destruct (step_worker_lifecycle cfg (sched k) s i w Hi)
      as (w1 & Hi1 & Hf1 & Hs1 & Hst1 & Ht1).
    destruct (IH (S k) _ w1 Hi1) as (w2 & Hi2 & Hf2 & Hs2 & Hst2 & Ht2).
    exists w2. split; [done|]. split; [congruence|]. split; [tauto|].
    split; [tauto|]. intros Hterm. pose proof (Ht1 Hterm) as Heq.
    rewrite <- Heq. apply Ht2. by rewrite Heq.
Qed.

Lemma worker_lifecycle_monotone_witness :
  let s := {| main := MJoin 0 StatCounter.empty StatCounter.empty;
              threads := [ {| _func := Stub.pred; stop_evt := true;
                              at_ := WRaised (Exn ValueError "too many values") |} ];
              q := Queue.new; q_dist := Queue.new |} in
  exists w',
    threads (run (Stub.cfg 1 1) (round_robin 1) 0 10 s) !! 0%nat = Some w'
    /\ at_ w' = WRaised (Exn ValueError "too many values").
Proof.
  intros s.
  destruct (worker_lifecycle_monotone (Stub.cfg 1 1) (round_robin 1) 0 10 s 0%nat
              _ eq_refl) as (w' & Hi & _ & _ & _ & Hterm).
  exists w'. split; [exact Hi | apply Hterm; reflexivity].
Defined.

(** X9. A worker that is not stopped ends with its first episode.  If the
    environment factory raises, the thread ends with that exception,
    whatever its class (the call is outside the [try]).  Otherwise, while
    the episode goes on, the worker is inside it; and when
    [play_one_episode] answers, the thread has ended: silently if the
    episode raised a [RuntimeError], with the exception if it raised
    another one, and with the [ValueError] of the unpacking if the episode
    returned.  The queues are what they were. *)
Theorem worker_run_one_episode {St Obs} (cfg : config St Obs)
    (f : Predictor Obs) (q0 qd0 : Queue.t) :
  (forall e, get_player_fn cfg false (files_list cfg) = Raise e ->
     worker_steps cfg false f 1 (WStarted, q0, qd0) = (WRaised e, q0, qd0))
  /\ (forall player ob0 st0 n st1 ob1 sum1,
        get_player_fn cfg false (files_list cfg) = Ok player ->
        env_reset (player_env cfg) player = Ok (ob0, st0) ->
        continues (player_env cfg) f false n st0 ob0 0 = Some (st1, ob1, sum1) ->
        worker_steps cfg false f (S (S n)) (WStarted, q0, qd0)
        = (WEpisode st1 ob1 sum1, q0, qd0))
  /\ (forall player fuel r,
        get_player_fn cfg false (files_list cfg) = Ok player ->
        play_one_episode fuel (player_env cfg) f false player = Some r ->
        worker_steps cfg false f (S (S fuel)) (WStarted, q0, qd0)
        = (match r with
           | Ok _ => WRaised (Exn ValueError
                                  "wrong number of values to unpack (expected 4)")
           | Raise e => if is_RuntimeError e then WReturned else WRaised e
           end, q0, qd0)).
Proof.
  split; [|split].
  - intros e He. simpl. by rewrite He.
  - intros player ob0 st0 n st1 ob1 sum1 Hp Hr Hc.
    cbn [worker_steps worker_step]. rewrite Hp. cbn [worker_steps worker_step].
    rewrite Hr. by apply worker_steps_continues.
  - intros player fuel r Hp Hplay.
    cbn [worker_steps worker_step]. rewrite Hp.
    by apply worker_steps_play_one_episode.
Qed.

Lemma play_one_episode_propagates_witness :
  play_one_episode 3 Stub.broken_env Stub.pred false 0%nat
  = Some (Raise (Exn RuntimeError "simulator crashed")).
Proof.
  apply (play_one_episode_propagates Stub.broken_env Stub.pred false 3 0%nat).
  right. exists 0%nat, 0%nat, 0%nat, 0%nat, 0%nat, 0%Q.
  repeat split; (reflexivity || lia).
Defined.

Lemma eval_with_funcs_collects_nothing_witness :
  Queue.items (q (run (Stub.cfg 2 5) (round_robin 2) 0 200 (init (Stub.cfg 2 5)))) = []
  /\ eval_with_funcs (Stub.cfg 2 0) (round_robin 2) 200 = Some (Ok zeros).
Proof.
  split.
  - destruct (eval_with_funcs_collects_nothing (Stub.cfg 2 5) (round_robin 2) 200)
      as (Hq & _). exact Hq.
  - destruct (eval_with_funcs_collects_nothing (Stub.cfg 2 0) (round_robin 2) 200)
      as (_ & _ & _ & Hret).
    destruct (eval_with_funcs (Stub.cfg 2 0) (round_robin 2) 200) as [r|] eqn:Hr.
    + by rewrite (Hret r eq_refl).
    + vm_compute in Hr. discriminate Hr.
Defined.

Lemma worker_run_one_episode_witness :
  worker_steps (Stub.cfg 1 1) false Stub.pred 7 (WStarted, Queue.new, Queue.new)
  = (WRaised (Exn ValueError "wrong number of values to unpack (expected 4)"),
     Queue.new, Queue.new).
Proof.
  destruct (worker_run_one_episode (Stub.cfg 1 1) Stub.pred Queue.new Queue.new)
    as (_ & _ & Hend).
  apply (Hend 0%nat 5%nat (Ok (Stub.ret, 2%nat))); vm_compute; reflexivity.
Defined.

(** ** The callers of [eval_with_funcs] *)

(** With no episode to await, the call comes back under every fair
    scheduler, and what it returns is (0, 0, 0, 0). *)
Lemma eval_with_funcs_returns {St Obs} (cfg : config St Obs) sched :
  nr_eval cfg <= 0 ->
  fair (length (predictors cfg)) sched ->
  exists n, forall m, (n <= m)%nat -> eval_with_funcs cfg sched m = Some (Ok zeros).
Proof.
  intros Hnr Hfair.
  destruct (fair_run_returns cfg Hnr sched Hfair _ (init cfg) 0%nat
              (Nat.le_refl _) (Inv_init cfg)) as (n & Hn).
  exists n. intros m Hm. unfold eval_with_funcs.
  replace m with (n + (m - n))%nat by lia.
  rewrite run_add. by rewrite (run_returned cfg sched _ _ _ _ Hn).
Qed.

(** X10. [eval_model_multithread] runs [min(cpu_count // 2, 8)] workers on
    the one predictor: at most 8, and none on a machine with a single
    processor.  Asked for no episode, it logs four zeros under every fair
    scheduler; asked for a positive number of episodes, it never comes back
    and logs nothing. *)
Theorem eval_model_multithread_outcome {St Obs} (cpu_count : Z)
    (pred : Predictor Obs) (nr_eval : Z) (player_env : Env St Obs)
    (get_player_fn : bool -> option (list string) -> result St)
    (files_list : option (list string)) :
  let workers := Z.to_nat (Z.min (cpu_count / 2) 8) in
  (workers <= 8)%nat
  /\ (cpu_count <= 1 -> workers = 0%nat)
  /\ (nr_eval <= 0 ->
      forall sched, fair workers sched ->
        exists n, forall m, (n <= m)%nat ->
          eval_model_multithread cpu_count pred nr_eval player_env get_player_fn
                                 files_list sched m
          = Some (Ok [("Average Score", 0%Q); ("Max Score", 0%Q);
                      ("Average Distance", 0%Q); ("Max Distance", 0%Q)]))
  /\ (0 < nr_eval ->
      forall sched n,
        eval_model_multithread cpu_count pred nr_eval player_env get_player_fn
                               files_list sched n = None).
Proof.
  intros workers. split; [unfold workers; lia|]. split.
  { intros Hcpu. unfold workers.
    assert (cpu_count / 2 <= 0) by (apply Z.lt_succ_r, Z.div_lt_upper_bound; lia).
    lia. }
  split.
  - intros Hnr sched Hfair.
    set (cfg := {| predictors := replicate workers pred; nr_eval := nr_eval;
                   player_env := player_env; get_player_fn := get_player_fn;
                   files_list := files_list |}).
    destruct (eval_with_funcs_returns cfg sched Hnr) as (n & Hn).
    { simpl. by rewrite length_replicate. }
    exists n. intros m Hm. unfold eval_model_multithread. fold workers. fold cfg.
    by rewrite (Hn m Hm).
  - intros Hnr sched n. unfold eval_model_multithread.
    by rewrite eval_with_funcs_blocks.
Qed.

Lemma eval_model_multithread_outcome_witness :
  eval_model_multithread 4 Stub.pred 10 Stub.env (fun _ _ => Ok 0%nat) None
                         (round_robin 2) 300 = None.
Proof.
  destruct (eval_model_multithread_outcome 4 Stub.pred 10 Stub.env
              (fun _ _ => Ok 0%nat) None) as (_ & _ & _ & Hblock).
  apply Hblock. lia.
Defined.

(** X11. The [Evaluator] callback as a whole.  [_setup_graph] keeps at most
    20 references, all to the one predictor it obtained.  A trigger whose
    budget is 0 comes back under every fair scheduler: it records the four
    scalars, all 0, and leaves the budget at 0.  A trigger whose budget is
    positive never comes back, so that it records nothing and does not
    change the budget. *)
Theorem Evaluator_trigger_outcome {St Obs} (cpu_count : Z)
    (predictor : Predictor Obs) (player_env : Env St Obs)
    (get_player_fn : bool -> option (list string) -> result St)
    (files_list : option (list string)) (clock0 clock1 : Q)
    (self : Evaluator.t) :
  let pred_funcs := Evaluator_setup_graph cpu_count predictor in
  (length pred_funcs <= 20)%nat
  /\ Forall (fun f => f = predictor) pred_funcs
  /\ (Evaluator.eval_episode self = 0 ->
      forall sched, fair (length pred_funcs) sched ->
        exists n, forall m, (n <= m)%nat ->
          Evaluator_trigger pred_funcs player_env get_player_fn files_list
                            clock0 clock1 self sched m
          = Some (Ok (Evaluator.mk 0 (Evaluator.monitors self ++ scalars zeros))))
  /\ (0 < Evaluator.eval_episode self ->
      forall sched n,
        Evaluator_trigger pred_funcs player_env get_player_fn files_list
                          clock0 clock1 self sched n = None).
Proof.
  intros pred_funcs. split.
  { unfold pred_funcs, Evaluator_setup_graph. rewrite length_replicate. lia. }
  split.
  { unfold pred_funcs, Evaluator_setup_graph. by apply Forall_replicate. }
  split.
  - intros Hb sched Hfair.
    set (cfg := {| predictors := pred_funcs;
                   nr_eval := Evaluator.eval_episode self;
                   player_env := player_env; get_player_fn := get_player_fn;
                   files_list := files_list |}).
    destruct (eval_with_funcs_returns cfg sched) as (n & Hn);
      [simpl; lia | done |].
    exists n. intros m Hm. unfold Evaluator_trigger. fold cfg. rewrite (Hn m Hm).
    f_equal. destruct self as [b mon]. simpl in Hb. subst b.
    unfold Evaluator._trigger, zeros. simpl.
    by destruct (Qlt_le_dec _ _).
  - intros Hb sched n. unfold Evaluator_trigger.
    by rewrite eval_with_funcs_blocks.
Qed.

Lemma Evaluator_trigger_outcome_witness :
  Evaluator_trigger (Evaluator_setup_graph 4 Stub.pred) Stub.env
                    (fun _ _ => Ok 0%nat) None 0 700 (Evaluator.mk 50 [])
                    (round_robin 2) 300 = None.
Proof.
  destruct (Evaluator_trigger_outcome 4 Stub.pred Stub.env (fun _ _ => Ok 0%nat)
              None 0 700 (Evaluator.mk 50 [])) as (_ & _ & _ & Hblock).
  apply Hblock. simpl. lia.
Defined.

(** ** The budget and the scalars over many triggers *)

(** One trigger on a budget between 0 and 2^46 succeeds: it records its
    four scalars after those recorded before, and leaves a budget that is at
    most 94/100 of the old one when it measured more than ten minutes, and
    the old budget otherwise. *)
Lemma trigger_or_keep_records ev self :
  0 <= Evaluator.eval_episode self <= 2 ^ 46 ->
  exists b',
    Evaluator.trigger_or_keep ev self
    = Evaluator.mk b' (Evaluator.monitors self ++ scalars ev.2)
    /\ 0 <= b' <= Evaluator.eval_episode self
    /\ (slow ev -> 100 * b' <= 94 * Evaluator.eval_episode self)
    /\ (~ slow ev -> b' = Evaluator.eval_episode self).
Proof.
  intros Hb. destruct ev as [[clock0 clock1] [[[a b] c] d]].
  unfold Evaluator.trigger_or_keep, Evaluator._trigger, slow, scalars. simpl.
  destruct (Qlt_le_dec (inject_Z (10 * 60)) (clock1 - clock0)) as [Hslow|Hfast].
  - destruct (shrink_floor _ Hb) as (z & Hz & Hzb & _).
    pose proof (shrink_le _ (proj1 Hb)) as Hle. rewrite Hz in Hle.
    rewrite Hz. simpl. exists z. split; [done|]. split; [lia|]. split; [|done].
    intros _.
    pose proof (Z.mul_div_le (94 * Evaluator.eval_episode self) 100 ltac:(lia)).
    lia.
  - simpl. exists (Evaluator.eval_episode self). split; [done|]. split; [lia|].
    split; [|done]. intros Hslow. exfalso. by apply (Qlt_not_le _ _ Hslow).
Qed.

(** X12. The budget decays geometrically under slow evaluations.  From a
    budget [b] between 0 and 2^46, after [k] triggers that each measured
    more than 600 seconds the budget is at most [b * 0.94^k] (and not
    negative); it is therefore 0 as soon as [b * 0.94^k < 1], and from then
    on the evaluations ask for no episode. *)
Theorem budget_decays (evs : list (Q * Q * (Q * Q * Q * Q))) (self : Evaluator.t) :
  0 <= Evaluator.eval_episode self <= 2 ^ 46 ->
  Forall slow evs ->
  let b := Evaluator.eval_episode self in
  let b' := Evaluator.eval_episode (Evaluator.triggers evs self) in
  let k := Z.of_nat (length evs) in
  0 <= b' /\ 100 ^ k * b' <= 94 ^ k * b /\ (94 ^ k * b < 100 ^ k -> b' = 0).
Proof.
  intros Hb Hslow. simpl.
  assert (H : 0 <= Evaluator.eval_episode (Evaluator.triggers evs self)
              /\ 100 ^ Z.of_nat (length evs)
                 * Evaluator.eval_episode (Evaluator.triggers evs self)
                 <= 94 ^ Z.of_nat (length evs) * Evaluator.eval_episode self).
  { revert self Hb. induction Hslow as [|ev evs Hev _ IH]; intros self Hb.
    - simpl. lia.
    - unfold Evaluator.triggers. simpl.
      fold (Evaluator.triggers evs (Evaluator.trigger_or_keep ev self)).
      destruct (trigger_or_keep_records ev self Hb) as (b1 & Heq & Hb1 & Hs & _).
      specialize (Hs Hev). rewrite Heq.
      destruct (IH (Evaluator.mk b1 (Evaluator.monitors self ++ scalars ev.2)))
        as [Hpos Hle]; [simpl; lia|].
      simpl in Hle. split; [done|].
      rewrite Nat2Z.inj_succ, !Z.pow_succ_r by lia.
      set (p100 := 100 ^ Z.of_nat (length evs)) in *.
      set (p94 := 94 ^ Z.of_nat (length evs)) in *.
      assert (0 <= p94) by (apply Z.pow_nonneg; lia).
      nia. }
  destruct H as [Hpos Hle]. split; [done|]. split; [done|].
  intros Hlt.
  assert (0 < 100 ^ Z.of_nat (length evs)) by (apply Z.pow_pos_nonneg; lia).
  nia.
Qed.

Lemma budget_decays_witness :
  let slow1 := (0, 700, zeros)%Q in
  Evaluator.eval_episode
    (Evaluator.triggers (replicate 80 slow1) (Evaluator.mk 100 [])) = 0.
Proof.
  intros slow1.
  destruct (budget_decays (replicate 80 slow1) (Evaluator.mk 100 [])) as (_ & _ & Hzero).
  - simpl. lia.
  - apply Forall_replicate. reflexivity.
  - apply Hzero. vm_compute. reflexivity.
Defined.

(** X13. Every trigger is recorded.  From a budget between 0 and 2^46, a
    sequence of triggers raises no exception and leaves in the monitors,
    after what was there before, the four scalars [mean_score],
    [max_score], [mean_distance], [max_distance] of each trigger, in the
    order of the triggers, whether or not the budget was lowered. *)
Theorem monitors_record_every_trigger (evs : list (Q * Q * (Q * Q * Q * Q)))
    (self : Evaluator.t) :
  0 <= Evaluator.eval_episode self <= 2 ^ 46 ->
  Evaluator.monitors (Evaluator.triggers evs self)
  = Evaluator.monitors self ++ concat ((fun ev => scalars ev.2) <$> evs).
Proof.
  revert self. induction evs as [|ev evs IH]; intros self Hb.
  - simpl. by rewrite app_nil_r.
  - unfold Evaluator.triggers. simpl.
    fold (Evaluator.triggers evs (Evaluator.trigger_or_keep ev self)).
    destruct (trigger_or_keep_records ev self Hb) as (b1 & Heq & Hb1 & _).
    rewrite Heq, IH by (simpl; lia). simpl. by rewrite <- app_assoc.
Qed.

Lemma monitors_record_every_trigger_witness :
  Evaluator.monitors
    (Evaluator.triggers [(0, 700, (1, 2, 3, 4)); (0, 30, (5, 6, 7, 8))]%Q
                        (Evaluator.mk 100 []))
  = [("mean_score", 1); ("max_score", 2); ("mean_distance", 3); ("max_distance", 4);
     ("mean_score", 5); ("max_score", 6); ("mean_distance", 7); ("max_distance", 8)]%Q.
Proof.
  apply (monitors_record_every_trigger
           [(0, 700, (1, 2, 3, 4)); (0, 30, (5, 6, 7, 8))]%Q (Evaluator.mk 100 [])).
  simpl. lia.
Defined.

(** ** What the rows of [play_n_episodes] hold *)

Lemma episode_row_inv k ret row :
  episode_row k ret = Ok row ->
  exists score filename d loc tl sp start l0 l1 l2 t0 t1 t2 s0 s1 s2,
    ret = [score; filename; d; loc; tl; sp; start]
    /\ first3 loc l0 l1 l2 /\ first3 tl t0 t1 t2 /\ first3 sp s0 s1 s2
    /\ row = [VInt (Z.of_nat k + 1); filename; score; d;
              l0; l1; l2; t0; t1; t2; s0; s1; s2].
Proof.
  unfold episode_row, first3.
  destruct ret as [|a [|b [|c [|d [|e [|f [|g [|h ?]]]]]]]]; try discriminate.
  simpl. destruct (log_episode b a c); simpl; [|discriminate].
  destruct (index d 0) as [l0|] eqn:?; simpl; [|discriminate].
  destruct (index d 1) as [l1|] eqn:?; simpl; [|discriminate].
  destruct (index d 2) as [l2|] eqn:?; simpl; [|discriminate].
  destruct (index e 0) as [t0|] eqn:?; simpl; [|discriminate].
  destruct (index e 1) as [t1|] eqn:?; simpl; [|discriminate].
  destruct (index e 2) as [t2|] eqn:?; simpl; [|discriminate].
  destruct (index f 0) as [s0|] eqn:?; simpl; [|discriminate].
  destruct (index f 1) as [s1|] eqn:?; simpl; [|discriminate].
  destruct (index f 2) as [s2|] eqn:?; simpl; [|discriminate].
  intros [= <-].
  exists a, b, c, d, e, f, g, l0, l1, l2, t0, t1, t2, s0, s1, s2.
  repeat split; done.
Qed.

(** X14. What a row holds and where its episode starts.  In a list
    returned by [play_n_episodes], the row at position [i + 1] belongs to
    an episode played from the state in which the first [i] episodes left
    the environment (it is not restarted in between).  With [score,
    filename, distance error, loc, target_loc, spacing, start_pos] the
    result of that episode, the row is [i + 1], the file name, the score,
    the distance error and the first three components of [loc], of
    [target_loc] and of [spacing], in the order of the header; the start
    position is left out. *)
Theorem play_n_episodes_row_contents {St Obs} (fuel : nat) (player : Env St Obs)
    (predfunc : Predictor Obs) (render : bool) (nr : Z) (st : St)
    (l : list (list value)) (st' : St) (i : nat) (row : list value) :
  play_n_episodes fuel player predfunc nr render st = Some (Ok (l, st')) ->
  l !! S i = Some row ->
  exists l_i st_i st_i' score filename d loc tl sp start l0 l1 l2 t0 t1 t2 s0 s1 s2,
    play_n_episodes fuel player predfunc (Z.of_nat i) render st = Some (Ok (l_i, st_i))
    /\ play_one_episode fuel player predfunc render st_i
       = Some (Ok ([score; filename; d; loc; tl; sp; start], st_i'))
    /\ first3 loc l0 l1 l2 /\ first3 tl t0 t1 t2 /\ first3 sp s0 s1 s2
    /\ row = [VInt (Z.of_nat i + 1); filename; score; d;
              l0; l1; l2; t0; t1; t2; s0; s1; s2].
Proof.
  intros Hplay Hrow.
  assert (Hlen : (S i < length l)%nat) by (by eapply lookup_lt_Some).
  pose proof Hplay as Hshape. unfold play_n_episodes in Hshape.
  apply play_episodes_from_shape in Hshape as (rows & Hl & Hrows & _).
  assert (Hi : (i < Z.to_nat nr)%nat).
  { rewrite Hl in Hlen. simpl in Hlen. lia. }
  replace nr with (Z.of_nat i + (nr - Z.of_nat i)) in Hplay by lia.
  rewrite play_n_episodes_add in Hplay by lia.
  destruct (play_n_episodes fuel player predfunc (Z.of_nat i) render st)
    as [[[l_i st_i]|e]|] eqn:Hpre; [|done|done].
  pose proof Hpre as Hshape_i. unfold play_n_episodes in Hshape_i.
  apply play_episodes_from_shape in Hshape_i as (rows_i & Hl_i & Hrows_i & _).
  rewrite Nat2Z.id in Hplay, Hrows_i.
  destruct (Z.to_nat (nr - Z.of_nat i)) as [|m] eqn:Hm; [lia|].
  simpl in Hplay.
  destruct (play_one_episode fuel player predfunc render st_i)
    as [[[ret st_i']|e]|] eqn:Hone; [|done|done].
  destruct (episode_row i ret) as [row_i|e] eqn:Hrow_i; [|done].
  apply play_episodes_from_shape in Hplay as (rest & Hl' & _).
  assert (Hrow' : row = row_i).
  { rewrite Hl', Hl_i in Hrow.
    rewrite <- !app_assoc in Hrow. simpl in Hrow.
    rewrite lookup_app_r in Hrow by lia.
    replace (i - length rows_i)%nat with 0%nat in Hrow by lia.
    simpl in Hrow. congruence. }
  subst row_i.
  apply episode_row_inv in Hrow_i
    as (score & filename & d & loc & tl & sp & start & l0 & l1 & l2 & t0 & t1 & t2
        & s0 & s1 & s2 & -> & Hloc & Htl & Hsp & ->).
  exists l_i, st_i, st_i', score, filename, d, loc, tl, sp, start,
         l0, l1, l2, t0, t1, t2, s0, s1, s2.
  done.
Qed.

Lemma play_n_episodes_row_contents_witness :
  exists l_i st_i st_i' score filename d loc tl sp start l0 l1 l2 t0 t1 t2 s0 s1 s2,
    play_n_episodes 5 Stub.env Stub.pred (Z.of_nat 1) false 0%nat
    = Some (Ok (l_i, st_i))
    /\ play_one_episode 5 Stub.env Stub.pred false st_i
       = Some (Ok ([score; filename; d; loc; tl; sp; start], st_i'))
    /\ first3 loc l0 l1 l2 /\ first3 tl t0 t1 t2 /\ first3 sp s0 s1 s2
    /\ [VInt 2; VStr "case01"; VFloat 2; VFloat (3 # 2);
        VInt 10; VInt 20; VInt 30; VInt 11; VInt 20; VInt 30;
        VFloat 1; VFloat 1; VFloat (5 # 2)]
       = [VInt (Z.of_nat 1 + 1); filename; score; d;
          l0; l1; l2; t0; t1; t2; s0; s1; s2].
Proof.
  eapply (play_n_episodes_row_contents 5 Stub.env Stub.pred false 3 0%nat _ _ 1%nat _);
    vm_compute; reflexivity.
Defined.

(** ** No thread is left running *)

Section Joined.
Context {St Obs : Type}.
Variable cfg : config St Obs.

Lemma joined_step t s s' :
  joined s -> sys_step cfg t s = Some s' -> joined s'.
Proof.
  intros Hj Hstep. destruct t as [|i]; simpl in Hstep.
  - unfold main_step in Hstep. unfold joined in *.
    destruct (main s) as [k|[|todo] st ds|todo st ds|k st ds|k st ds|st ds|st ds|r|e];
      try discriminate.
    + by destruct (threads s !! k); injection Hstep as <-.
    + by injection Hstep as <-.
    + destruct (Queue.get (q s)) as [[? ?]|]; [|done]. injection Hstep as <-.
      simpl. by destruct (StatCounter.feed_value _ _).
    + destruct (Queue.get (q_dist s)) as [[? ?]|]; [|done]. injection Hstep as <-.
      simpl. by destruct (StatCounter.feed_value _ _).
    + destruct (threads s !! k); injection Hstep as <-; simpl; [done|].
      intros j w Hlt. lia.
    + destruct (threads s !! k) as [wk|] eqn:Hk.
      * assert (Hcase : (exists e, s' = set_main (MRaised e) s)
                        \/ (terminated (at_ wk) = true
                            /\ s' = set_main (MJoin (S k) st ds) s)).
        { destruct (at_ wk); simpl in Hstep; try discriminate;
            injection Hstep as <-; eauto. }
        destruct Hcase as [[e ->] | [Hterm ->]]; simpl; [done|].
        intros j w Hlt Hw. destruct (decide (j = k)) as [->|].
        -- by assert (w = wk) as -> by congruence.
        -- apply (Hj j w); [lia | done].
      * injection Hstep as <-. simpl. apply Forall_lookup. intros j w Hw.
        apply (Hj j w); [|done].
        apply lookup_ge_None in Hk. apply lookup_lt_Some in Hw. lia.
    + destruct (Queue.get (q s)) as [[? ?]|]; injection Hstep as <-; simpl; [|done].
      by destruct (StatCounter.feed_value _ _).
    + destruct (Queue.get (q_dist s)) as [[? ?]|]; injection Hstep as <-; simpl.
      * by destruct (StatCounter.feed_value _ _).
      * by destruct (eval_return _ _).
  - destruct (threads s !! i) as [w|] eqn:Hw; [|done].
    destruct (worker_step cfg (stop_evt w) (_func w) (at_ w) (q s) (q_dist s))
      as [[[w' q'] qd']|] eqn:Hws; [|done].
    injection Hstep as <-.
    assert (Hnt : terminated (at_ w) = false).
    { destruct (at_ w); simpl in Hws; done. }
    unfold joined in *. simpl.
    destruct (main s) as [k|todo st ds|todo st ds|k st ds|k st ds|st ds|st ds|r|e];
      try done.
    + intros j wj Hlt Hwj. destruct (decide (i = j)) as [->|Hne].
      * rewrite (Hj j w Hlt Hw) in Hnt. discriminate.
      * rewrite list_lookup_insert_ne in Hwj by done. by apply (Hj j wj).
    + rewrite Forall_lookup in Hj. rewrite (Hj i w Hw) in Hnt. discriminate.
    + rewrite Forall_lookup in Hj. rewrite (Hj i w Hw) in Hnt. discriminate.
    + rewrite Forall_lookup in Hj. rewrite (Hj i w Hw) in Hnt. discriminate.
Qed.

Lemma joined_run sched k n s : joined s -> joined (run cfg sched k n s).
Proof.
  revert k s. induction n as [|n IH]; intros k s Hj; simpl; [done|].
  apply IH. unfold step_or_stay.
  destruct (sys_step cfg (sched k) s) as [s'|] eqn:Hstep; simpl; [|done].
  by eapply joined_step.
Qed.

End Joined.

(** X15. [eval_with_funcs] leaves no thread running.  Whatever the
    predictors, the environments and the interleaving of the threads, when
    the call has returned a value every worker thread has ended: the
    [join] loop has waited for each of them. *)
Theorem eval_with_funcs_joins_all {St Obs} (cfg : config St Obs)
    (sched : nat -> tid) (n : nat) (r : Q * Q * Q * Q) :
  eval_with_funcs cfg sched n = Some (Ok r) ->
  Forall (fun w => terminated (at_ w) = true)
         (threads (run cfg sched 0 n (init cfg))).
Proof.
  unfold eval_with_funcs. intros Hret.
  pose proof (joined_run cfg sched 0 n (init cfg) I) as Hj. unfold joined in Hj.
  by destruct (main (run cfg sched 0 n (init cfg))).
Qed.

Lemma eval_with_funcs_joins_all_witness :
  Forall (fun w => terminated (at_ w) = true)
         (threads (run (Stub.cfg 2 0) (round_robin 2) 0 200 (init (Stub.cfg 2 0)))).
Proof.
  apply (eval_with_funcs_joins_all (Stub.cfg 2 0) (round_robin 2) 200 zeros).
  vm_compute. reflexivity.
Defined.

(** ** The deadlock behind a call that awaits results *)

Section Deadlock.
Context {St Obs : Type}.
Variable cfg : config St Obs.
Hypothesis Hnr : 0 < nr_eval cfg.

(** Outside the queue puts a step of a worker neither reads nor writes the
    queues. *)
Lemma worker_step_indep b f (w : wstate) q1 qd1 w' q' qd' q2 qd2 :
  putting w = false ->
  worker_step cfg b f w q1 qd1 = Some (w', q', qd') ->
  worker_step cfg b f w q2 qd2 = Some (w', q2, qd2).
Proof.
  intros Hp H. destruct w; simpl in *; try discriminate.
  - by injection H as <- _ _.
  - destruct b; by injection H as <- _ _.
  - by injection H as <- _ _.
Qed.

Lemma worker_step_enabled b f (w : @wstate St Obs) q0 qd0 :
  started w = true -> terminated w = false ->
  is_Some (worker_step cfg b f w q0 qd0).
Proof. intros Hs Ht. destruct w; simpl in *; try done; try destruct b; eauto. Qed.

Lemma ends_within_step f c (w w' : wstate) q0 qd0 q' qd' :
  putting w = false ->
  worker_step cfg false f w q0 qd0 = Some (w', q', qd') ->
  ends_within cfg f c w = true ->
  exists c', c = S c' /\ ends_within cfg f c' w' = true.
Proof.
  intros Hp Hstep Hend.
  pose proof (worker_step_indep _ _ _ _ _ _ _ _ Queue.new Queue.new Hp Hstep) as Hnew.
  unfold ends_within in *. destruct c as [|c']; simpl in Hend.
  - destruct w; simpl in *; discriminate.
  - rewrite Hnew in Hend. by exists c'.
Qed.

Lemma deadlock_step t s s' cs :
  running cfg cs s -> sys_step cfg t s = Some s' ->
  exists cs', running cfg cs' s'
              /\ (start_rank s' + sum_list cs' < start_rank s + sum_list cs)%nat.
Proof.
  intros (HInv & Haw & Hends) Hstep.
  pose proof (Inv_step cfg t s s' HInv Hstep) as HInv'.
  pose proof (awaiting_step cfg t s s' Hnr HInv Haw Hstep) as Haw'.
  destruct t as [|i]; simpl in Hstep.
  - exists cs. unfold main_step in Hstep. destruct Haw as [Hm _].
    destruct Hm as [(k & Hk) | (todo & a & b & Ht)].
    + rewrite Hk in Hstep. unfold start_rank. rewrite Hk.
      destruct (threads s !! k) as [w|] eqn:Hw; injection Hstep as <-; simpl.
      * split.
        -- split; [done|]. split; [done|]. unfold ends_in in *. simpl.
           destruct (Forall2_lookup_l _ _ _ _ _ Hends Hw) as (c & Hc & Hwc).
           rewrite <- (list_insert_id cs k c Hc).
           apply Forall2_insert; [done|].
           assert (Hs : _func (start w) = _func w
                        /\ awake (at_ (start w)) = awake (at_ w)).
           { unfold start. destruct (at_ w) eqn:E; simpl; rewrite ?E; done. }
           destruct Hs as [-> ->]. done.
        -- rewrite length_insert. apply lookup_lt_Some in Hw. lia.
      * split; [done|]. lia.
    + rewrite Ht in Hstep. destruct HInv as (_ & _ & Hq & _).
      unfold Queue.get in Hstep. by rewrite Hq in Hstep.
  - destruct (threads s !! i) as [w|] eqn:Hw; [|done].
    destruct (worker_step cfg (stop_evt w) (_func w) (at_ w) (q s) (q_dist s))
      as [[[w' q'] qd']|] eqn:Hws; [|done].
    injection Hstep as <-.
    destruct Haw as [_ Hstop]. rewrite Forall_lookup in Hstop.
    rewrite (Hstop i w Hw) in Hws.
    destruct HInv as (_ & Hput & _). rewrite Forall_lookup in Hput.
    pose proof (Hput i w Hw) as Hp.
    destruct (Forall2_lookup_l _ _ _ _ _ Hends Hw) as (c & Hc & Hwc).
    assert (Hawake : awake (at_ w) = at_ w).
    { destruct (at_ w); simpl in Hws; done. }
    rewrite Hawake in Hwc.
    destruct (ends_within_step _ _ _ _ _ _ _ _ Hp Hws Hwc) as (c' & -> & Hc').
    exists (<[i := c']> cs). split.
    + split; [done|]. split; [done|]. unfold ends_in. simpl.
      apply Forall2_insert; [done|]. simpl.
      assert (Hawake' : awake w' = w').
      { pose proof (worker_step_started cfg _ _ _ _ _ _ _ _ Hws). by destruct w'. }
      by rewrite Hawake'.
    + unfold start_rank. simpl.
      pose proof (sum_list_with_insert id cs i (S c') c' Hc) as Hsum.
      change (id (S c')) with (S c') in Hsum. change (id c') with c' in Hsum.
      rewrite length_insert. destruct (main s); lia.
Qed.

(** While the call is not hung, some thread of the system can move. *)
Lemma running_live cs s :
  running cfg cs s ->
  hung cfg s
  \/ exists t, valid_tid (length (predictors cfg)) t /\ is_Some (sys_step cfg t s).
Proof.
  intros (HInv & [Hm Hstop] & Hends).
  destruct Hm as [(k & Hk) | (todo & a & b & Ht)].
  - right. exists MainThread. split; [done|]. simpl. unfold main_step. rewrite Hk.
    destruct (threads s !! k); eauto.
  - destruct HInv as (Hlen & Hput & Hq & Hqd & Hmi).
    unfold main_inv in Hmi. rewrite Ht in Hmi. destruct Hmi as (Htodo & -> & -> & Hst).
    destruct (decide (Forall (fun w => terminated (at_ w) = true) (threads s)))
      as [Hall | Hnot].
    + left. split; [by rewrite Ht, Htodo|]. split; [done|].
      intros [|i]; simpl.
      * unfold main_step. rewrite Ht. unfold Queue.get. by rewrite Hq.
      * destruct (threads s !! i) as [w|] eqn:Hw; [|done].
        rewrite Forall_lookup in Hall. pose proof (Hall i w Hw) as Hterm.
        by destruct (at_ w).
    + right. apply not_Forall_Exists in Hnot; [|apply _].
      apply Exists_exists in Hnot as (w & Hin & Hnt).
      apply list_elem_of_lookup in Hin as (i & Hw).
      exists (WorkerThread i). split.
      * simpl. rewrite <- Hlen. by eapply lookup_lt_Some.
      * simpl. rewrite Hw.
        unfold all_started in Hst. rewrite Forall_lookup in Hst.
        destruct (worker_step_enabled (stop_evt w) (_func w) (at_ w) (q s) (q_dist s))
          as [[[w' q'] qd'] Hws].
        -- by apply (Hst i w).
        -- by apply not_true_is_false.
        -- rewrite Hws. eauto.
Qed.

Lemma deadlocked_run sched k n s :
  deadlocked cfg s -> run cfg sched k n s = s.
Proof.
  intros Hd. revert k. induction n as [|n IH]; intros k; simpl; [done|].
  unfold step_or_stay. rewrite (Hd (sched k)). simpl. apply IH.
Qed.

(** Under a fair scheduler a call that awaits results ends up hung. *)
Lemma fair_run_hangs sched :
  fair (length (predictors cfg)) sched ->
  forall r s k cs, (start_rank s + sum_list cs <= r)%nat -> running cfg cs s ->
    exists n, hung cfg (run cfg sched k n s).
Proof.
  intros Hfair. induction r as [|r IHr]; intros s k cs Hr Hrun.
  - destruct (running_live cs s Hrun) as [Hhung | (t & _ & [s' Hstep])].
    + by exists 0%nat.
    + destruct (deadlock_step t s s' cs Hrun Hstep) as (cs' & _ & Hlt). lia.
  - destruct (running_live cs s Hrun) as [Hhung | (t & Hvalid & Hlive)];
      [by exists 0%nat|].
    destruct (Hfair t k Hvalid) as (j & Hj & Hsched).
    replace j with (k + (j - k))%nat in Hsched by lia.
    generalize dependent (j - k)%nat. clear j Hj. intros d.
    revert k. induction d as [|d IHd]; intros k Hsched.
    + rewrite Nat.add_0_r in Hsched. destruct Hlive as [s' Hstep].
      destruct (deadlock_step t s s' cs Hrun Hstep) as (cs' & Hrun' & Hlt).
      destruct (IHr s' (S k) cs') as (n & Hn); [lia | done |].
      exists (S n). rewrite run_S. unfold step_or_stay. by rewrite Hsched, Hstep.
    + destruct (sys_step cfg (sched k) s) as [s'|] eqn:Hstep.
      * destruct (deadlock_step _ s s' cs Hrun Hstep) as (cs' & Hrun' & Hlt).
        destruct (IHr s' (S k) cs') as (n & Hn); [lia | done |].
        exists (S n). rewrite run_S. unfold step_or_stay. by rewrite Hstep.
      * destruct (IHd (S k)) as (n & Hn).
        -- by replace (S k + d)%nat with (k + S d)%nat by lia.
        -- exists (S n). rewrite run_S. unfold step_or_stay. by rewrite Hstep.
Qed.

End Deadlock.

Lemma ends_within_start {St Obs} (cfg : config St Obs) (f : Predictor Obs) :
  (forall player,
      get_player_fn cfg false (files_list cfg) = Ok player ->
      exists fuel r, play_one_episode fuel (player_env cfg) f false player = Some r) ->
  exists c, ends_within cfg f c WStarted = true.
Proof.
  intros Hplay. unfold ends_within.
  destruct (get_player_fn cfg false (files_list cfg)) as [player|e] eqn:Hp.
  - destruct (Hplay player eq_refl) as (fuel & r & Hr).
    exists (S (S fuel)).
    assert (Hs : worker_steps cfg false f (S (S fuel)) (WStarted, Queue.new, Queue.new)
                 = worker_steps cfg false f (S fuel) (WLoop player, Queue.new, Queue.new)).
    { change (worker_steps cfg false f (S (S fuel)) (WStarted, Queue.new, Queue.new))
        with (match worker_step cfg false f WStarted Queue.new Queue.new with
              | Some x' => worker_steps cfg false f (S fuel) x'
              | None => (WStarted, Queue.new, Queue.new)
              end).
      cbn [worker_step]. by rewrite Hp. }
    rewrite Hs, (worker_steps_play_one_episode cfg f fuel player r _ _ Hr). simpl.
    destruct r as [?|e]; [done|]. unfold on_exception.
    by destruct (is_RuntimeError e).
  - exists 1%nat. simpl. by rewrite Hp.
Qed.

Lemma ends_in_init {St Obs} (cfg : config St Obs) :
  (forall f, f ∈ predictors cfg -> exists c, ends_within cfg f c WStarted = true) ->
  exists cs, ends_in cfg cs (init cfg).
Proof.
  unfold ends_in, init. simpl. induction (predictors cfg) as [|f l IH]; intros H.
  - exists []. constructor.
  - destruct IH as (cs & Hcs).
    { intros g Hg. apply H. by right. }
    destruct (H f) as (c & Hc); [by left|].
    exists (c :: cs). simpl. by constructor.
Qed.

(** X16. The deadlock behind a call that awaits results.  Let a positive
    number of episodes be asked for, and let the first episode of every
    worker come to an end (by returning or by raising).  Then under every
    fair scheduler the system reaches, and stays in, a state in which the
    calling thread waits in [q.get()] with all [nr_eval] rounds still to
    do, every worker thread has ended, and no thread can move. *)
Theorem eval_with_funcs_deadlocks {St Obs} (cfg : config St Obs)
    (sched : nat -> tid) :
  0 < nr_eval cfg ->
  (forall f player,
      f ∈ predictors cfg ->
      get_player_fn cfg false (files_list cfg) = Ok player ->
      exists fuel r, play_one_episode fuel (player_env cfg) f false player = Some r) ->
  fair (length (predictors cfg)) sched ->
  exists n, forall m, (n <= m)%nat ->
    let s := run cfg sched 0 m (init cfg) in
    main s = MGetScore (Z.to_nat (nr_eval cfg)) StatCounter.empty StatCounter.empty
    /\ Forall (fun w => terminated (at_ w) = true) (threads s)
    /\ (forall t, sys_step cfg t s = None).
Proof.
  intros Hnr Hplay Hfair.
  destruct (ends_in_init cfg) as (cs & Hcs).
  { intros f Hf. apply ends_within_start. intros player Hp. by apply Hplay. }
  destruct (fair_run_hangs cfg Hnr sched Hfair _ (init cfg) 0%nat cs (Nat.le_refl _))
    as (n & Hn).
  { split; [apply Inv_init|]. split; [apply awaiting_init | done]. }
  exists n. intros m Hm s. subst s.
  replace m with (n + (m - n))%nat by lia. rewrite run_add.
  destruct Hn as (Hmain & Hall & Hdead).
  rewrite (deadlocked_run cfg sched _ _ _ Hdead). done.
Qed.

Lemma eval_with_funcs_deadlocks_witness :
  exists n, forall m, (n <= m)%nat ->
    Forall (fun w => terminated (at_ w) = true)
           (threads (run (Stub.cfg 2 3) (round_robin 2) 0 m (init (Stub.cfg 2 3)))).
Proof.
  destruct (eval_with_funcs_deadlocks (Stub.cfg 2 3) (round_robin 2)) as (n & Hn).
  - simpl. lia.
  - intros f player Hf _. apply elem_of_replicate in Hf as [-> _].
    exists 5%nat. eexists. reflexivity.
  - apply round_robin_fair.
  - exists n. intros m Hm. apply (Hn m Hm).
Defined.
